(** * giddyup: the version incrementer, the version locator and the
      declaration renderer of [main.go], embedded and verified.

    Go strings are byte sequences; they are modelled as [string] (one [ascii]
    per byte).  Go's [int] is taken to be 64 bits wide and its wrap-around is
    written out.  Functions that return [(string, error)] return a pair whose
    second component is an [option error] ([None] is Go's [nil]). *)

From Stdlib Require Import ZArith Ascii String List Lia Bool DecimalString.
From stdpp Require Import gmap strings list.

Local Open Scope string_scope.

(** ** Bytes and strings *)

Definition isDigit (a : ascii) : bool :=
  (48 <=? nat_of_ascii a)%nat && (nat_of_ascii a <=? 57)%nat.

Definition dot : ascii := "."%char.
Definition dquote : ascii := ascii_of_nat 34.

(** The first [n] bytes of [s] (Go's [s[:n]], for [n] within range). *)
Fixpoint prefix_of (n : nat) (s : string) : string :=
  match n, s with
  | S n', String a s' => String a (prefix_of n' s')
  | _, _ => EmptyString
  end.

(** ** regexp: the fragment of Go's regular expressions the tool uses

    Go matches runes of UTF-8 text and the model matches bytes.  For the
    patterns below that is the same: their only classes are the ASCII digits
    of [\d] and the dot, and no byte of a multi-byte rune is either. *)

Module regexp.

(** Syntax trees, named after the operators of [regexp/syntax]. *)
Inductive Regexp : Type :=
| OpBeginText                       (* \A *)
| OpEndText                         (* \z *)
| OpLiteral (c : ascii)             (* an escaped or plain byte *)
| OpCharClass (p : ascii -> bool)   (* \d is [OpCharClass isDigit] *)
| OpConcat (r1 r2 : Regexp)
| OpPlus (r : Regexp)               (* r+, greedy *)
| OpCapture (n : nat) (r : Regexp). (* the n-th parenthesis *)

(** What the capture groups hold: group number to matched text. *)
Abbreviation caps := (gmap nat string).

(** What is left to match after a piece of the expression: the offset
    reached, the rest of the input and the captures so far. *)
Abbreviation cont := (nat -> string -> caps -> option caps).

(** The repetition [r+], [body] being the matcher of [r].  A greedy [+]
    first tries one more iteration and only then what follows it.  An
    iteration that consumes nothing ends the repetition, so [fuel], which
    starts as the number of bytes left plus one, is never used up. *)
Fixpoint plus_loop (body : nat -> string -> caps -> cont -> option caps)
    (k : cont) (fuel : nat) (pos : nat) (s : string) (c : caps)
    {struct fuel} : option caps :=
  match fuel with
  | O => None
  | S fuel' =>
      body pos s c
        (fun pos' s' c' =>
           match (if (pos <? pos')%nat
                  then plus_loop body k fuel' pos' s' c' else None) with
           | Some m => Some m
           | None => k pos' s' c'
           end)
  end.

(** Backtracking matcher in continuation-passing style.  [pos] is the byte
    offset of [s] in the whole input, [k] is what remains to be matched.
    Alternatives are tried in Go's order of preference, so the first
    success is the match Go reports, and a capture inside a repetition
    holds its last iteration. *)
Fixpoint exec (r : Regexp) (pos : nat) (s : string) (c : caps)
    (k : cont) {struct r} : option caps :=
  match r with
  | OpBeginText => if (pos =? 0)%nat then k pos s c else None
  | OpEndText => match s with EmptyString => k pos s c | _ => None end
  | OpLiteral x =>
      match s with
      | String a s' => if Ascii.eqb a x then k (S pos) s' c else None
      | EmptyString => None
      end
  | OpCharClass p =>
      match s with
      | String a s' => if p a then k (S pos) s' c else None
      | EmptyString => None
      end
  | OpConcat r1 r2 =>
      exec r1 pos s c (fun pos' s' c' => exec r2 pos' s' c' k)
  | OpCapture n r1 =>
      exec r1 pos s c
        (fun pos' s' c' => k pos' s' (<[n := prefix_of (pos' - pos) s]> c'))
  | OpPlus r1 =>
      plus_loop (exec r1) k (S (String.length s)) pos s c
  end.

(** One attempt at offset [pos]; group 0 is the whole match. *)
Definition exec_at (r : Regexp) (pos : nat) (s : string) : option caps :=
  exec r pos s ∅
    (fun pos' _ c' => Some (<[0%nat := prefix_of (pos' - pos) s]> c')).

(** The leftmost match: offsets are tried from left to right. *)
Fixpoint search (r : Regexp) (pos : nat) (s : string) : option caps :=
  match exec_at r pos s with
  | Some m => Some m
  | None =>
      match s with
      | EmptyString => None
      | String _ s' => search r (S pos) s'
      end
  end.

Definition MatchString (r : Regexp) (s : string) : bool :=
  match search r 0 s with Some _ => true | None => false end.

(** The leftmost match as Go lays it out: the whole match followed by the
    [n] groups, a group that took no part being the empty string. *)
Definition FindStringSubmatch (r : Regexp) (n : nat) (s : string)
    : option (list string) :=
  match search r 0 s with
  | Some m => Some (map (fun i => default EmptyString (m !! i)) (seq 0 (S n)))
  | None => None
  end.

End regexp.

Import regexp.

Definition digit_class : Regexp := OpCharClass isDigit.

(** [regexp.MustCompile("\\A(\\d)+\\.(\\d)\\.(\\d)+\\z")]: in the source the
    [+] stands outside the parentheses of the first and third group, and the
    second group has no [+] at all. *)
Definition versionRegEx : Regexp :=
  OpConcat OpBeginText
 (OpConcat (OpPlus (OpCapture 1 digit_class))
 (OpConcat (OpLiteral dot)
 (OpConcat (OpCapture 2 digit_class)
 (OpConcat (OpLiteral dot)
 (OpConcat (OpPlus (OpCapture 3 digit_class))
           OpEndText))))).


(** ** strconv and fmt *)

(** Go's [error] interface, as far as the tool observes it: the message that
    [Error()] returns. *)
Record error : Type := errorString { Error : string }.

Definition int_min : Z := (- 2 ^ 63)%Z.
Definition int_max : Z := (2 ^ 63 - 1)%Z.

(** [x + y] on [int]: two's complement wrap-around. *)
Definition wrap_int (z : Z) : Z := ((z + 2 ^ 63) mod 2 ^ 64 - 2 ^ 63)%Z.
Definition int_add (x y : Z) : Z := wrap_int (x + y).

Definition digit_value (a : ascii) : Z := Z.of_nat (nat_of_ascii a) - 48.

Fixpoint all_digits (s : string) : bool :=
  match s with
  | EmptyString => true
  | String a s' => isDigit a && all_digits s'
  end.

(** The value of a digit string, most significant digit first. *)
Fixpoint decimal_value (acc : Z) (s : string) : Z :=
  match s with
  | EmptyString => acc
  | String a s' => decimal_value (10 * acc + digit_value a) s'
  end.

Definition hex_digit (n : nat) : ascii :=
  match String.get n "0123456789abcdef" with Some a => a | None => "0"%char end.

(** [strconv.Quote] on one byte.  Printable ASCII is kept, the quote and the
    backslash are escaped, control characters get Go's short escapes or a
    [\x] escape.  Bytes above 0x7f are written as [\x] escapes, which is what
    Go does for bytes that are not valid UTF-8 (whether Go keeps a valid
    multi-byte rune depends on Unicode tables that are not modelled). *)
Definition quote_byte (a : ascii) : string :=
  let n := nat_of_ascii a in
  if Ascii.eqb a dquote then String "\"%char (String dquote EmptyString)
  else if Ascii.eqb a "\"%char then "\\"
  else if (32 <=? n)%nat && (n <=? 126)%nat then String a EmptyString
  else match n with
       | 7 => "\a" | 8 => "\b" | 12 => "\f" | 10 => "\n"
       | 13 => "\r" | 9 => "\t" | 11 => "\v"
       | _ => "\x" +:+ String (hex_digit (n / 16)) (String (hex_digit (n mod 16)) EmptyString)
       end%nat.

Fixpoint quote_bytes (s : string) : string :=
  match s with
  | EmptyString => EmptyString
  | String a s' => quote_byte a +:+ quote_bytes s'
  end.

Definition Quote (s : string) : string :=
  String dquote (quote_bytes s +:+ String dquote EmptyString).

(** The message of a [*strconv.NumError] of [Atoi]. *)
Definition NumError (num err : string) : error :=
  errorString ("strconv.Atoi: parsing " +:+ Quote num +:+ ": " +:+ err).

(** [strconv.Atoi]: an optional sign, then at least one decimal digit and
    nothing else; a value outside [int] is a range error (and the nearest
    bound is returned with it). *)
Definition Atoi (s : string) : Z * option error :=
  let '(neg, body) :=
    match s with
    | String "-"%char r => (true, r)
    | String "+"%char r => (false, r)
    | _ => (false, s)
    end in
  match body with
  | EmptyString => (0%Z, Some (NumError s "invalid syntax"))
  | _ =>
      if all_digits body then
        let v := decimal_value 0 body in
        let n := if neg : bool then (- v)%Z else v in
        if (n <? int_min)%Z then (int_min, Some (NumError s "value out of range"))
        else if (int_max <? n)%Z then (int_max, Some (NumError s "value out of range"))
        else (n, None)
      else (0%Z, Some (NumError s "invalid syntax"))
  end.

(** The verb [%d] of [fmt] on an [int]. *)
Definition fmt_d (z : Z) : string := NilZero.string_of_int (Z.to_int z).

(** ** The version incrementer *)

(** [getNextVersion] (main.go, lines 171-204).  When [MatchString] holds,
    [FindAllStringSubmatch(version, -1)[0]] is the leftmost match, which is
    what [FindStringSubmatch] returns. *)
Definition getNextVersion (version mode : string) : string * option error :=
  if MatchString versionRegEx version then
    let matches := default [] (FindStringSubmatch versionRegEx 3 version) in
    let '(majorVersion, err) := Atoi (nth 1 matches EmptyString) in
    match err with
    | Some err =>
        (EmptyString, Some (errorString
           ("Version format should be [number.number.number] but was ["
              +:+ version +:+ "]: [" +:+ Error err +:+ "]")))
    | None =>
    let '(minorVersion, err) := Atoi (nth 2 matches EmptyString) in
    match err with
    | Some err =>
        (EmptyString, Some (errorString
           ("Version format should be [number.number.number] but was ["
              +:+ version +:+ "]: [" +:+ Error err +:+ "]")))
    | None =>
    let '(patchVersion, err) := Atoi (nth 3 matches EmptyString) in
    match err with
    | Some err =>
        (EmptyString, Some (errorString
           ("Version format should be [number.number.number] but was ["
              +:+ version +:+ "]: [" +:+ Error err +:+ "]")))
    | None =>
    let '(majorVersion, minorVersion, patchVersion) :=
      if String.eqb mode "PATCH"
      then (majorVersion, minorVersion, int_add patchVersion 1)
      else if String.eqb mode "MINOR"
      then (majorVersion, int_add minorVersion 1, patchVersion)
      else if String.eqb mode "MAJOR"
      then (int_add majorVersion 1, minorVersion, patchVersion)
      else (majorVersion, minorVersion, patchVersion) in
    (fmt_d majorVersion +:+ "." +:+ fmt_d minorVersion +:+ "."
       +:+ fmt_d patchVersion, None)
    end end end
  else
    (EmptyString, Some (errorString
       ("Version format should be [number.number.number] but was ["
          +:+ version +:+ "]"))).

(** The pattern as the specification words it, [^\d+\.\d+\.\d+$]: three
    digit groups of any length.  Without the multi-line flag Go's [^] and [$]
    are the two ends of the text. *)
Definition specRegEx : Regexp :=
  OpConcat OpBeginText
 (OpConcat (OpPlus digit_class)
 (OpConcat (OpLiteral dot)
 (OpConcat (OpPlus digit_class)
 (OpConcat (OpLiteral dot)
 (OpConcat (OpPlus digit_class)
           OpEndText))))).

(** ** Reading a version by hand

    What the two patterns accept, written as plain scans of the input; the
    theorems below show that the matcher computes exactly these. *)

(** The input after its leading run of digits. *)
Fixpoint skip_digits (s : string) : string :=
  match s with
  | String a s' => if isDigit a then skip_digits s' else s
  | EmptyString => s
  end.

(** The last digit of the run of digits that starts with [a] and goes on
    into [s]. *)
Fixpoint last_digit (a : ascii) (s : string) : ascii :=
  match s with
  | String b s' => if isDigit b then last_digit b s' else a
  | EmptyString => a
  end.

(** The three bytes that [versionRegEx] captures: the last digit of the
    first run, the single digit between the dots, the last digit of the
    final run. *)
Definition version_fields (s : string) : option (ascii * ascii * ascii) :=
  match s with
  | String a s1 =>
      if isDigit a then
        match skip_digits s1 with
        | String x1 (String d (String x2 (String b s3))) =>
            if Ascii.eqb x1 dot && isDigit d && Ascii.eqb x2 dot && isDigit b
            then match skip_digits s3 with
                 | EmptyString => Some (last_digit a s1, d, last_digit b s3)
                 | _ => None
                 end
            else None
        | _ => None
        end
      else None
  | EmptyString => None
  end.

(** Digits, a dot, digits, a dot, digits, and nothing else. *)
Definition is_version_triple (s : string) : bool :=
  match s with
  | String a s1 =>
      isDigit a &&
      match skip_digits s1 with
      | String x1 (String b s2) =>
          Ascii.eqb x1 dot && isDigit b &&
          match skip_digits s2 with
          | String x2 (String c s3) =>
              Ascii.eqb x2 dot && isDigit c &&
              match skip_digits s3 with
              | EmptyString => true
              | _ => false
              end
          | _ => false
          end
      | _ => false
      end
  | EmptyString => false
  end.

(** A decimal numeral: at least one digit and nothing but digits. *)
Definition numeral (s : string) : bool :=
  match s with
  | EmptyString => false
  | String _ _ => all_digits s
  end.

(** Which component a mode selects. *)
Definition bump (mode : string) (v : Z * Z * Z) : Z * Z * Z :=
  let '(major, minor, patch) := v in
  if String.eqb mode "PATCH" then (major, minor, int_add patch 1)
  else if String.eqb mode "MINOR" then (major, int_add minor 1, patch)
  else if String.eqb mode "MAJOR" then (int_add major 1, minor, patch)
  else (major, minor, patch).

Definition render_version (v : Z * Z * Z) : string :=
  let '(major, minor, patch) := v in
  fmt_d major +:+ "." +:+ fmt_d minor +:+ "." +:+ fmt_d patch.

(** ** Repetition of a one-byte expression *)

(** An expression that consumes exactly one byte of class [p] and records
    it in the captures with [upd]. *)
Definition consumes_one (r : Regexp) (p : ascii -> bool)
    (upd : ascii -> caps -> caps) : Prop :=
  forall pos s c k,
    exec r pos s c k =
    match s with
    | String a s' => if p a then k (S pos) s' (upd a c) else None
    | EmptyString => None
    end.

(** The greedy run: all the bytes of class [p] at the front of [s]. *)
Fixpoint eat (p : ascii -> bool) (upd : ascii -> caps -> caps)
    (pos : nat) (s : string) (c : caps) : nat * string * caps :=
  match s with
  | String a s' => if p a then eat p upd (S pos) s' (upd a c) else (pos, s, c)
  | EmptyString => (pos, s, c)
  end.


(** The captures of a successful match of the version pattern. *)
Definition version_caps (s : string) (f : ascii * ascii * ascii) : caps :=
  let '(l1, d, l3) := f in
  <[0%nat := s]> (<[3%nat := String l3 EmptyString]>
    (<[2%nat := String d EmptyString]>
      (<[1%nat := String l1 EmptyString]> ∅))).

(** [strings.Contains(s, sub)] as a proposition. *)
Definition Contains (s sub : string) : Prop :=
  exists pre post, s = pre +:+ sub +:+ post.

(** The message of the format error for the input [version]. *)
Definition format_message (version : string) : string :=
  "Version format should be [number.number.number] but was ["
    +:+ version +:+ "]".

(** ** strings *)

Definition newline : ascii := ascii_of_nat 10.
Definition tab : ascii := ascii_of_nat 9.
Definition nl : string := String newline EmptyString.

Fixpoint in_cutset (cutset : string) (a : ascii) : bool :=
  match cutset with
  | EmptyString => false
  | String x cutset' => Ascii.eqb a x || in_cutset cutset' a
  end.

Fixpoint TrimLeft (s cutset : string) : string :=
  match s with
  | EmptyString => EmptyString
  | String a s' => if in_cutset cutset a then TrimLeft s' cutset else s
  end.

Fixpoint TrimRight (s cutset : string) : string :=
  match s with
  | EmptyString => EmptyString
  | String a s' =>
      match TrimRight s' cutset with
      | EmptyString =>
          if in_cutset cutset a then EmptyString else String a EmptyString
      | r => String a r
      end
  end.

(** [strings.Trim] for a cutset of ASCII bytes: the leading and the trailing
    bytes that are in the cutset are all removed. *)
Definition Trim (s cutset : string) : string :=
  TrimRight (TrimLeft s cutset) cutset.

Definition HasSuffix (s suffix : string) : bool :=
  (String.length suffix <=? String.length s)%nat &&
  String.eqb
    (substring (String.length s - String.length suffix)
       (String.length suffix) s)
    suffix.

(** ** path/filepath, with [/] as the separator *)

Module filepath.

Definition Separator : ascii := "/"%char.

(** The elements of a path between its separators. *)
Fixpoint split (s : string) (cur : string) : list string :=
  match s with
  | EmptyString => [cur]
  | String a s' =>
      if Ascii.eqb a Separator then cur :: split s' EmptyString
      else split s' (cur +:+ String a EmptyString)
  end.

(** One element of the path against the cleaned elements so far, last one
    first: empty and [.] elements vanish, [..] removes the element before it
    when there is one to remove, is dropped at the root, and is kept at the
    start of a path that is not rooted. *)
Definition clean_elem (rooted : bool) (out : list string) (elem : string)
    : list string :=
  if String.eqb elem EmptyString || String.eqb elem "." then out
  else if String.eqb elem ".." then
    match out with
    | top :: out' => if String.eqb top ".." then elem :: out else out'
    | [] => if rooted then out else [elem]
    end
  else elem :: out.

(** [filepath.Clean]: the shortest path equivalent to [path] by purely
    lexical processing. *)
Definition Clean (path : string) : string :=
  match path with
  | EmptyString => "."
  | String a _ =>
      let rooted := Ascii.eqb a Separator in
      let out := fold_left (clean_elem rooted) (split path EmptyString) [] in
      let body := String.concat "/" (rev out) in
      if rooted then "/" +:+ body
      else if String.eqb body EmptyString then "." else body
  end.

(** [path] up to and including its last separator. *)
Fixpoint up_to_last_separator (path : string) : string :=
  match path with
  | EmptyString => EmptyString
  | String a path' =>
      match up_to_last_separator path' with
      | EmptyString =>
          if Ascii.eqb a Separator then String a EmptyString else EmptyString
      | r => String a r
      end
  end.

(** [filepath.Dir]: all but the last element of [path], cleaned. *)
Definition Dir (path : string) : string := Clean (up_to_last_separator path).

(** [filepath.Join]: the elements from the first one that is not empty on,
    joined by separators and cleaned. *)
Fixpoint Join (elem : list string) : string :=
  match elem with
  | [] => EmptyString
  | e :: elem' =>
      if String.eqb e EmptyString then Join elem'
      else Clean (String.concat "/" elem)
  end.

End filepath.

(** ** go/token and go/ast, as far as the locator looks at them *)

Module token.

Inductive Token : Type :=
| IMPORT | CONST | TYPE | VAR               (* the keyword of a GenDecl *)
| INT | FLOAT | IMAG | CHAR | STRING.       (* the kind of a BasicLit *)

Definition eqb (a b : Token) : bool :=
  match a, b with
  | IMPORT, IMPORT | CONST, CONST | TYPE, TYPE | VAR, VAR
  | INT, INT | FLOAT, FLOAT | IMAG, IMAG | CHAR, CHAR | STRING, STRING => true
  | _, _ => false
  end.

End token.

Module ast.

(** Expressions: a basic literal carries its kind and its source text (for a
    string literal, the text with its quotes); the tool does not look into
    any other expression. *)
Inductive Expr : Type :=
| BasicLit (Kind : token.Token) (Value : string)
| Ident (Name : string)
| OtherExpr.

Inductive Spec : Type :=
| ImportSpec
| ValueSpec (Names : list string) (Values : list Expr)
| TypeSpec.

Inductive Decl : Type :=
| BadDecl
| GenDecl (Tok : token.Token) (Specs : list Spec)
| FuncDecl.

(** [Name] is the identifier of the package clause. *)
Record File : Type := mkFile { Name : string; Decls : list Decl }.

End ast.

(** ** The process and its surroundings *)

(** How a function of the tool ends: it returns, or [log.Fatalf] prints its
    message and ends the process. *)
Inductive outcome (A : Type) : Type :=
| Return (a : A)
| Exit (msg : string).
Arguments Return {A} a.
Arguments Exit {A} msg.

(** The operating system as the tool uses it, over any type of states of the
    world: reading a file, listing a directory (the names of its entries,
    sorted), creating or truncating and writing a file, printing to standard
    output.  A write that succeeds can be read back; printing leaves files
    and directories as they are. *)
Class OS (World : Type) : Type := {
  ReadFile : World -> string -> string + error;
  ReadDir : World -> string -> list string + error;
  WriteFile : World -> string -> string -> World * option error;
  Printf : World -> string -> World;
  WriteFile_ReadFile : forall w name data w',
    WriteFile w name data = (w', None) -> ReadFile w' name = inl data;
  Printf_ReadFile : forall w s name,
    ReadFile (Printf w s) name = ReadFile w name;
  Printf_ReadDir : forall w s name,
    ReadDir (Printf w s) name = ReadDir w name
}.

(** The command line flags, which the tool keeps in global variables. *)
Class Flags : Type := {
  variable : string;
  verbose : bool
}.

(** ** A fragment of go/scanner and go/parser

    The declarations the tool itself writes, and a little more: line
    comments, a package clause, and constant declarations, single or in
    parentheses, whose names are ASCII identifiers and whose values are
    string literals without escapes.  On a source of this fragment [parse]
    returns the syntax tree that Go's parser builds for it.  [None] says
    nothing about Go: the source is outside the fragment, where Go's parser
    may succeed as well as fail. *)

Module GoFragment.

Inductive tok : Type :=
| IDENT (name : string)
| PACKAGE
| CONST
| KEYWORD (name : string)        (* the other keywords *)
| STRING (lit : string)          (* the literal with its quotes *)
| ASSIGN | LPAREN | RPAREN | COMMA | SEMICOLON.

Definition isLetter (a : ascii) : bool :=
  let n := nat_of_ascii a in
  ((97 <=? n) && (n <=? 122) || (65 <=? n) && (n <=? 90) || (n =? 95))%nat.

Definition keywords : list string :=
  ["break"; "case"; "chan"; "const"; "continue"; "default"; "defer"; "else";
   "fallthrough"; "for"; "func"; "go"; "goto"; "if"; "import"; "interface";
   "map"; "package"; "range"; "return"; "select"; "struct"; "switch"; "type";
   "var"].

Definition is_keyword (name : string) : bool :=
  existsb (String.eqb name) keywords.

(** The token of a scanned word. *)
Definition word (name : string) : tok :=
  if String.eqb name "package" then PACKAGE
  else if String.eqb name "const" then CONST
  else if is_keyword name then KEYWORD name
  else IDENT name.

(** Whether a newline after the token stands for a semicolon. *)
Definition semi_after (t : tok) : bool :=
  match t with
  | IDENT _ | STRING _ | RPAREN => true
  | KEYWORD name =>
      existsb (String.eqb name) ["break"; "continue"; "fallthrough"; "return"]
  | _ => false
  end.

(** Printable ASCII. *)
Definition printable (a : ascii) : bool :=
  let n := nat_of_ascii a in (32 <=? n)%nat && (n <=? 126)%nat.

(** The bytes of a string literal of the fragment: printable ASCII but for
    the quote and the backslash. *)
Definition plain_byte (a : ascii) : bool :=
  printable a && negb (Ascii.eqb a dquote) && negb (Ascii.eqb a "\"%char).

Definition comment_byte (a : ascii) : bool :=
  printable a || Ascii.eqb a tab.

(** Where the scanner is: between tokens ([semi]: a newline here stands for
    a semicolon), inside a word, inside a string literal, after a slash or
    an equals sign, inside a line comment. *)
Inductive mode : Type :=
| Between (semi : bool)
| InWord (acc : string)
| InString (acc : string)
| AfterSlash (semi : bool)
| AfterAssign
| InComment (semi : bool).

Definition end_of_line (semi : bool) : list tok * mode :=
  (if semi then [SEMICOLON] else [], Between false).

(** The first byte of a token, or white space: the tokens completed and the
    mode to go on in. *)
Definition start (semi : bool) (a : ascii) : option (list tok * mode) :=
  if Ascii.eqb a " "%char || Ascii.eqb a tab || Ascii.eqb a (ascii_of_nat 13)
  then Some ([], Between semi)
  else if Ascii.eqb a newline then Some (end_of_line semi)
  else if isLetter a then Some ([], InWord (String a EmptyString))
  else if Ascii.eqb a dquote then Some ([], InString (String a EmptyString))
  else if Ascii.eqb a "/"%char then Some ([], AfterSlash semi)
  else if Ascii.eqb a "="%char then Some ([], AfterAssign)
  else if Ascii.eqb a "("%char then Some ([LPAREN], Between false)
  else if Ascii.eqb a ")"%char then Some ([RPAREN], Between true)
  else if Ascii.eqb a ","%char then Some ([COMMA], Between false)
  else if Ascii.eqb a ";"%char then Some ([SEMICOLON], Between false)
  else None.

Definition emit (t : tok) (r : option (list tok * mode))
    : option (list tok * mode) :=
  match r with
  | Some (ts, m) => Some (t :: ts, m)
  | None => None
  end.

(** One byte of input. *)
Definition step (m : mode) (a : ascii) : option (list tok * mode) :=
  match m with
  | Between semi => start semi a
  | InWord acc =>
      if isLetter a || isDigit a
      then Some ([], InWord (acc +:+ String a EmptyString))
      else if (128 <=? nat_of_ascii a)%nat then None
      else emit (word acc) (start (semi_after (word acc)) a)
  | InString acc =>
      if Ascii.eqb a dquote
      then Some ([STRING (acc +:+ String a EmptyString)], Between true)
      else if plain_byte a
      then Some ([], InString (acc +:+ String a EmptyString))
      else None
  | AfterSlash semi =>
      if Ascii.eqb a "/"%char then Some ([], InComment semi) else None
  | AfterAssign =>
      if Ascii.eqb a "="%char then None else emit ASSIGN (start false a)
  | InComment semi =>
      if Ascii.eqb a newline then Some (end_of_line semi)
      else if comment_byte a then Some ([], InComment semi)
      else None
  end.

(** The end of the input. *)
Definition finish (m : mode) : option (list tok) :=
  match m with
  | Between semi | InComment semi => Some (if semi then [SEMICOLON] else [])
  | InWord acc =>
      Some (word acc :: if semi_after (word acc) then [SEMICOLON] else [])
  | AfterAssign => Some [ASSIGN]
  | InString _ | AfterSlash _ => None
  end.

Fixpoint scan (m : mode) (s : string) : option (list tok) :=
  match s with
  | EmptyString => finish m
  | String a s' =>
      match step m a with
      | Some (ts, m') =>
          match scan m' s' with
          | Some ts' => Some (ts ++ ts')%list
          | None => None
          end
      | None => None
      end
  end.

(** IdentList: identifiers separated by commas. *)
Fixpoint parseIdentList (ts : list tok) : option (list string * list tok) :=
  match ts with
  | IDENT name :: COMMA :: ts' =>
      match parseIdentList ts' with
      | Some (names, rest) => Some (name :: names, rest)
      | None => None
      end
  | IDENT name :: ts' => Some ([name], ts')
  | _ => None
  end.

(** ExpressionList, of string literals; what follows the list has to end
    the specification. *)
Fixpoint parseExprList (ts : list tok) : option (list ast.Expr * list tok) :=
  match ts with
  | STRING lit :: COMMA :: ts' =>
      match parseExprList ts' with
      | Some (values, rest) =>
          Some (ast.BasicLit token.STRING lit :: values, rest)
      | None => None
      end
  | STRING lit :: ((SEMICOLON | RPAREN) :: _) as ts' =>
      Some ([ast.BasicLit token.STRING lit], ts')
  | _ => None
  end.

(** ConstSpec: names, [=], values. *)
Definition parseValueSpec (ts : list tok) : option (ast.Spec * list tok) :=
  match parseIdentList ts with
  | Some (names, ASSIGN :: ts') =>
      match parseExprList ts' with
      | Some (values, rest) => Some (ast.ValueSpec names values, rest)
      | None => None
      end
  | _ => None
  end.

(** The specifications between parentheses, each followed by a semicolon,
    which the last one may do without. *)
Fixpoint parseGroup (fuel : nat) (ts : list tok)
    : option (list ast.Spec * list tok) :=
  match fuel with
  | O => None
  | S fuel' =>
      match ts with
      | RPAREN :: rest => Some ([], rest)
      | _ =>
          match parseValueSpec ts with
          | Some (spec, SEMICOLON :: ts') =>
              match parseGroup fuel' ts' with
              | Some (specs, rest) => Some (spec :: specs, rest)
              | None => None
              end
          | Some (spec, RPAREN :: rest) => Some ([spec], rest)
          | _ => None
          end
      end
  end.

(** GenDecl with the keyword [const], and the semicolon after it. *)
Definition parseGenDecl (ts : list tok) : option (ast.Decl * list tok) :=
  match ts with
  | CONST :: LPAREN :: ts' =>
      match parseGroup (S (length ts')) ts' with
      | Some (specs, SEMICOLON :: rest) =>
          Some (ast.GenDecl token.CONST specs, rest)
      | _ => None
      end
  | CONST :: ts' =>
      match parseValueSpec ts' with
      | Some (spec, SEMICOLON :: rest) =>
          Some (ast.GenDecl token.CONST [spec], rest)
      | _ => None
      end
  | _ => None
  end.

Fixpoint parseDecls (fuel : nat) (ts : list tok) : option (list ast.Decl) :=
  match fuel with
  | O => None
  | S fuel' =>
      match ts with
      | [] => Some []
      | _ =>
          match parseGenDecl ts with
          | Some (decl, rest) =>
              match parseDecls fuel' rest with
              | Some decls => Some (decl :: decls)
              | None => None
              end
          | None => None
          end
      end
  end.

(** SourceFile: the package clause, then the declarations. *)
Definition parseFile (ts : list tok) : option ast.File :=
  match ts with
  | PACKAGE :: IDENT name :: SEMICOLON :: ts' =>
      match parseDecls (S (length ts')) ts' with
      | Some decls => Some (ast.mkFile name decls)
      | None => None
      end
  | _ => None
  end.

Definition parse (src : string) : option ast.File :=
  match scan (Between false) src with
  | Some ts => parseFile ts
  | None => None
  end.

End GoFragment.

(** Go's parser, as far as the tool depends on it: any function from a
    source text to a syntax tree or an error that reads the sources of the
    fragment above as [GoFragment.parse] does. *)
Class GoParser : Type := {
  ParseSource : string -> ast.File + error;
  ParseSource_fragment : forall src f,
    GoFragment.parse src = Some f -> ParseSource src = inl f
}.

(** ** The tool *)

(** A [for ... range] loop whose body may return: the result of the first
    iteration that returns. *)
Fixpoint first_return {A B : Type} (body : A -> option B) (l : list A)
    : option B :=
  match l with
  | [] => None
  | x :: l' =>
      match body x with
      | Some r => Some r
      | None => first_return body l'
      end
  end.

(** [errWriter] (main.go, lines 34-44); the buffer is the text written so
    far, and writing to a [bytes.Buffer] returns a nil error. *)
Record errWriter : Type := mkErrWriter { b : string; err : option error }.

Definition writeString (ew : errWriter) (value : string) : errWriter :=
  match err ew with
  | Some _ => ew
  | None => mkErrWriter (b ew +:+ value) None
  end.

Definition Sprintln (s : string) : string := s +:+ nl.

(** [writeHeader] (main.go, lines 207-212): the buffer afterwards and the
    error. *)
Definition writeHeader (buffer : string) (variable : string)
    : string * option error :=
  let ew := mkErrWriter buffer None in
  let ew := writeString ew
    (Sprintln "// GENERATED and MANAGED by giddyup (https://github.com/alexandre-normand/giddyup)") in
  (b ew, err ew).

(** [generateContent] (main.go, lines 214-218), the format being
    ["package %s\n\nconst (\n\t%s = \"%s\"\n)\n"]. *)
Definition generateContent (pkg version variable : string) (buffer : string)
    : string * option error :=
  (buffer +:+
     ("package " +:+ pkg +:+ nl +:+ nl +:+ "const (" +:+ nl +:+
      String tab (variable +:+ " = " +:+ String dquote (version +:+
      String dquote (nl +:+ ")" +:+ nl)))),
   None).

(** The text that [run] hands to [WriteFile] (main.go, lines 99-108): the
    buffer after [writeHeader] and [generateContent]. *)
Definition rendered (pkg version variable : string) : string :=
  fst (generateContent pkg version variable
         (fst (writeHeader EmptyString variable))).

Section Tool.

Context {World : Type} {os : OS World} {parser : GoParser} {flags : Flags}.

(** [parser.ParseFile(fset, filename, nil, 0)]: the file is read and its
    text parsed. *)
Definition ParseFile (w : World) (filename : string) : ast.File + error :=
  match ReadFile w filename with
  | inl src => ParseSource src
  | inr e => inr e
  end.

(** The loops of [getCurrentVersion] (main.go, lines 147-166), from the
    innermost one out: the first basic literal among the values of the first
    name that is the flag [variable], in the first constant declaration that
    has one. *)
Definition findInValues (values : list ast.Expr) : option string :=
  first_return
    (fun value =>
       match value with
       | ast.BasicLit _ Value => Some (Trim Value (String dquote EmptyString))
       | _ => None
       end) values.

Definition findInNames (names : list string) (values : list ast.Expr)
    : option string :=
  first_return
    (fun name => if String.eqb name variable then findInValues values else None)
    names.

Definition findInSpecs (specs : list ast.Spec) : option string :=
  first_return
    (fun spec =>
       match spec with
       | ast.ValueSpec Names Values => findInNames Names Values
       | _ => None
       end) specs.

Definition findInDecls (decls : list ast.Decl) : option string :=
  first_return
    (fun decl =>
       match decl with
       | ast.GenDecl Tok Specs =>
           if token.eqb Tok token.CONST then findInSpecs Specs else None
       | _ => None
       end) decls.

(** [getCurrentVersion] (main.go, lines 131-169): the version, the error and
    the world afterwards (which differs by what was printed). *)
Definition getCurrentVersion (w : World) (path : string) (lazyInit : bool)
    : string * option error * World :=
  let versionFilePath := filepath.Join [path; "version.go"] in
  match ParseFile w versionFilePath with
  | inr err =>
      if lazyInit then
        let w :=
          if verbose
          then Printf w ("Version file not found at [" +:+ versionFilePath
                           +:+ "], initializing version to [1.0.0]" +:+ nl)
          else w in
        ("1.0.0", None, w)
      else (EmptyString, Some err, w)
  | inl f =>
      match findInDecls (ast.Decls f) with
      | Some version => (version, None, w)
      | None =>
          (EmptyString,
           Some (errorString ("Could not find version constant [" +:+ variable
                                +:+ "] in file [" +:+ versionFilePath +:+ "]")),
           w)
      end
  end.

(** The loop of [parsePackage] (main.go, lines 231-240): every entry whose
    name ends in [.go] is parsed, under the name the listing gives it. *)
Fixpoint parseFiles (w : World) (files : list string)
    (astFiles : list ast.File) : outcome (list ast.File) :=
  match files with
  | [] => Return astFiles
  | file :: files' =>
      if negb (HasSuffix file ".go") then parseFiles w files' astFiles
      else
        match ParseFile w file with
        | inr err =>
            Exit ("parsing package: " +:+ file +:+ ": " +:+ Error err)
        | inl parsedFile => parseFiles w files' (astFiles ++ [parsedFile])
        end
  end.

(** [parsePackage] (main.go, lines 223-245). *)
Definition parsePackage (w : World) (directory : string) : outcome string :=
  match ReadDir w directory with
  | inr err =>
      Exit ("Failed to read directory [" +:+ directory +:+ "]: " +:+ Error err)
  | inl files =>
      match parseFiles w files [] with
      | Exit msg => Exit msg
      | Return [] => Exit (directory +:+ ": no buildable Go files")
      | Return (first :: _) => Return (ast.Name first)
      end
  end.

(** What [run] prints on the way when the flag [verbose] is set. *)
Definition announce (w : World) (version nextDevVersion : string) : World :=
  if verbose
  then Printf (Printf w ("Current version is [" +:+ version +:+ "]" +:+ nl))
         ("Next dev version is [" +:+ nextDevVersion +:+ "]" +:+ nl)
  else w.

(** The body of the loop of [run] for one path (main.go, lines 81-116): the
    world afterwards, and the error that [run] returns with or nil to go on,
    unless the process exits. *)
Definition runPath (variable : string) (mode : string) (lazyInit : bool)
    (w : World) (path : string) : World * outcome (option error) :=
  let '(version, err, w) := getCurrentVersion w path lazyInit in
  match err with
  | Some err => (w, Return (Some err))
  | None =>
  let w := if verbose
           then Printf w ("Current version is [" +:+ version +:+ "]" +:+ nl)
           else w in
  let '(nextDevVersion, err) := getNextVersion version mode in
  match err with
  | Some err => (w, Return (Some err))
  | None =>
  let w := if verbose
           then Printf w ("Next dev version is [" +:+ nextDevVersion +:+ "]"
                            +:+ nl)
           else w in
  match writeHeader EmptyString variable with
  | (_, Some err) => (w, Return (Some err))
  | (buffer, None) =>
  match parsePackage w path with
  | Exit msg => (w, Exit msg)
  | Return pkg =>
  match generateContent pkg nextDevVersion variable buffer with
  | (_, Some err) => (w, Return (Some err))
  | (buffer, None) =>
  let output := filepath.Dir path +:+ "/version.go" in
  match WriteFile w output buffer with
  | (w, Some err) => (w, Return (Some err))
  | (w, None) => (w, Return None)
  end end end end end end.

(** [run] (main.go, lines 79-120): the paths in order, up to the first error
    or exit. *)
Fixpoint run (variable : string) (inputPaths : list string) (mode : string)
    (lazyInit : bool) (w : World) : World * outcome (option error) :=
  match inputPaths with
  | [] => (w, Return None)
  | path :: inputPaths' =>
      match runPath variable mode lazyInit w path with
      | (w, Return None) => run variable inputPaths' mode lazyInit w
      | stop => stop
      end
  end.

End Tool.

(** ** What the claims speak of *)

(** The layout of the output file in the words of the specification: the
    comment line, a blank line, the package header, the constant block. *)
Definition comment_line : string :=
  "// GENERATED and MANAGED by giddyup (https://github.com/alexandre-normand/giddyup)"
    +:+ nl.
Definition package_line (pkg : string) : string := "package " +:+ pkg +:+ nl.
Definition const_block (variable version : string) : string :=
  "const (" +:+ nl +:+ String tab (variable +:+ " = ") +:+
  String dquote version +:+ String dquote nl +:+ ")" +:+ nl.
Definition spec_layout (pkg variable version : string) : string :=
  comment_line +:+ nl +:+ package_line pkg +:+ const_block variable version.

(** A Go identifier of the fragment that is not a keyword. *)
Fixpoint word_bytes (s : string) : bool :=
  match s with
  | EmptyString => true
  | String a s' => (GoFragment.isLetter a || isDigit a) && word_bytes s'
  end.

Definition identifier (s : string) : bool :=
  match s with
  | EmptyString => false
  | String a s' =>
      GoFragment.isLetter a && word_bytes s' && negb (GoFragment.is_keyword s)
  end.

(** A text that can stand between the quotes of a string literal as it is:
    printable ASCII without quote and backslash. *)
Fixpoint plain_text (s : string) : bool :=
  match s with
  | EmptyString => true
  | String a s' => GoFragment.plain_byte a && plain_text s'
  end.

(** The scanner over a piece of the input: the tokens completed in it and
    the mode at its end. *)
Fixpoint scan_steps (m : GoFragment.mode) (s : string)
    : option (list GoFragment.tok * GoFragment.mode) :=
  match s with
  | EmptyString => Some ([], m)
  | String a s' =>
      match GoFragment.step m a with
      | Some (ts, m') =>
          match scan_steps m' s' with
          | Some (ts', m'') => Some ((ts ++ ts')%list, m'')
          | None => None
          end
      | None => None
      end
  end.

(** The syntax tree of the file that the tool writes. *)
Definition rendered_file (pkg version variable : string) : ast.File :=
  ast.mkFile pkg
    [ast.GenDecl token.CONST
       [ast.ValueSpec [variable]
          [ast.BasicLit token.STRING
             (String dquote (version +:+ String dquote EmptyString))]]].

Section Claims.

Context {World : Type} {os : OS World} {parser : GoParser} {flags : Flags}.

(** Whether some constant declaration names the flag [variable]. *)
Definition declares_constant (decls : list ast.Decl) : bool :=
  existsb
    (fun decl =>
       match decl with
       | ast.GenDecl Tok Specs =>
           token.eqb Tok token.CONST &&
           existsb
             (fun spec =>
                match spec with
                | ast.ValueSpec Names _ =>
                    existsb (fun name => String.eqb name variable) Names
                | _ => false
                end) Specs
       | _ => false
       end) decls.

(** The entries of a directory listing that are source files, and what
    parsing each of them in that directory gives. *)
Definition source_names (files : list string) : list string :=
  List.filter (fun name => HasSuffix name ".go") files.

Definition sources (w : World) (directory : string) (files : list string)
    : list (ast.File + error) :=
  map (fun name => ParseFile w (filepath.Join [directory; name]))
    (source_names files).

(** The first source file of the directory that parses. *)
Definition first_parseable (w : World) (directory : string)
    (files : list string) : option ast.File :=
  first_return
    (fun r => match r with inl f => Some f | inr _ => None end)
    (sources w directory files).

End Claims.

(** ** A world in memory

    Files by path, directory listings by path, and the lines printed; used
    to run the tool on concrete inputs.  A path is looked up as it is
    spelled, and a write always succeeds. *)
Record MemWorld : Type := mkMemWorld {
  mem_files : gmap string string;
  mem_dirs : gmap string (list string);
  mem_stdout : list string
}.

Definition no_such_file (name : string) : error :=
  errorString ("open " +:+ name +:+ ": no such file or directory").

Definition mem_ReadFile (w : MemWorld) (name : string) : string + error :=
  match mem_files w !! name with
  | Some src => inl src
  | None => inr (no_such_file name)
  end.

Definition mem_ReadDir (w : MemWorld) (name : string)
    : list string + error :=
  match mem_dirs w !! name with
  | Some files => inl files
  | None => inr (no_such_file name)
  end.

Definition mem_WriteFile (w : MemWorld) (name data : string)
    : MemWorld * option error :=
  (mkMemWorld (<[name := data]> (mem_files w)) (mem_dirs w) (mem_stdout w),
   None).

Definition mem_Printf (w : MemWorld) (s : string) : MemWorld :=
  mkMemWorld (mem_files w) (mem_dirs w) (mem_stdout w ++ [s])%list.

#[global, refine] Instance mem_os : OS MemWorld := {|
  ReadFile := mem_ReadFile;
  ReadDir := mem_ReadDir;
  WriteFile := mem_WriteFile;
  Printf := mem_Printf
|}.
Proof.
- intros w name data w' [= <-]. unfold mem_ReadFile. simpl.
  rewrite lookup_insert_eq. reflexivity.
- reflexivity.
- reflexivity.
Defined.

(** The parser that knows the fragment and nothing else. *)
#[global, refine] Instance fragment_parser : GoParser := {|
  ParseSource src :=
    match GoFragment.parse src with
    | Some f => inl f
    | None => inr (errorString "syntax error")
    end
|}.
Proof. intros src f ->. reflexivity. Defined.

(** The flags at their defaults. *)
#[global] Instance default_flags : Flags := {|
  variable := "VERSION";
  verbose := false
|}.

(** ** Concrete worlds *)

(** Nothing at all. *)
Definition empty_world : MemWorld := mkMemWorld ∅ ∅ [].

(** A package without a version file (scenario D). *)
Definition fresh_project : MemWorld :=
  mkMemWorld {[ "main.go" := "package main" +:+ nl ]}
             {[ "." := ["README.md"; "main.go"] ]} [].

(** A version file written by the tool for the version 1.2.9. *)
Definition released : MemWorld :=
  mkMemWorld {[ "version.go" := rendered "main" "1.2.9" "VERSION" ]}
             {[ "." := ["version.go"] ]} [].

(** A version file that declares another constant. *)
Definition other_constant : MemWorld :=
  mkMemWorld {[ "version.go" := rendered "main" "1.0.0" "OTHER" ]}
             {[ "." := ["version.go"] ]} [].

(** A working directory with the package main at version 3.0.0 and, in its
    directory [src], a version file at 1.2.9. *)
Definition src_release : MemWorld :=
  mkMemWorld {[ "main.go" := "package main" +:+ nl;
                "version.go" := rendered "main" "3.0.0" "VERSION";
                "src/main.go" := "package main" +:+ nl;
                "src/version.go" := rendered "main" "1.2.9" "VERSION" ]}
             {[ "." := ["main.go"; "src"; "version.go"];
                "src" := ["main.go"; "version.go"] ]} [].

(** A directory whose first source file parses and whose second one, an
    empty file, does not. *)
Definition broken_sibling : MemWorld :=
  mkMemWorld {[ "a.go" := "package p" +:+ nl; "b.go" := EmptyString ]}
             {[ "." := ["a.go"; "b.go"] ]} [].

(** ** The read-only mode *)

Section ReadOnly.

Context {World : Type} {os : OS World} {parser : GoParser} {flags : Flags}.

(** [printCurrentVersion] (main.go, lines 67-77): the version of each path
    is located without initialization and printed with the format [%s]; the
    first error ends the loop. *)
Fixpoint printCurrentVersion (variable : string) (inputPaths : list string)
    (w : World) : World * option error :=
  match inputPaths with
  | [] => (w, None)
  | path :: inputPaths' =>
      let '(version, err, w) := getCurrentVersion w path false in
      match err with
      | Some err => (w, Some err)
      | None => printCurrentVersion variable inputPaths' (Printf w version)
      end
  end.

End ReadOnly.

(** Whether a value is a basic literal, which is all that the locator asks
    of it. *)
Definition is_basic_lit (value : ast.Expr) : bool :=
  match value with
  | ast.BasicLit _ _ => true
  | _ => false
  end.

(** The version that a first run writes when there is no version file: the
    default 1.0.0 after the increment that the mode selects. *)
Definition initial_release (mode : string) : string :=
  if String.eqb mode "PATCH" then "1.0.1"
  else if String.eqb mode "MINOR" then "1.1.0"
  else if String.eqb mode "MAJOR" then "2.0.0"
  else "1.0.0".

(** A path without a separator. *)
Fixpoint no_separator (path : string) : bool :=
  match path with
  | EmptyString => true
  | String a path' =>
      negb (Ascii.eqb a filepath.Separator) && no_separator path'
  end.

(** ** More concrete worlds *)

(** A package in the directory [app/], named with its trailing separator,
    whose source file is found under its bare name. *)
Definition app_project : MemWorld :=
  mkMemWorld {[ "main.go" := "package main" +:+ nl ]}
             {[ "app/" := ["main.go"] ]} [].

(** The same for the directory [src], named without a separator. *)
Definition src_project : MemWorld :=
  mkMemWorld {[ "main.go" := "package main" +:+ nl ]}
             {[ "src" := ["main.go"] ]} [].

(** Two directories with the same source file among their entries. *)
Definition two_directories : MemWorld :=
  mkMemWorld {[ "main.go" := "package main" +:+ nl ]}
             {[ "a" := ["main.go"]; "b" := ["README.md"; "main.go"] ]} [].

(** The flags with [--verbose] given. *)
Definition verbose_flags : Flags := {|
  variable := "VERSION";
  verbose := true
|}.

(** A version file that holds the version 1.10.0. *)
Definition minor_ten : MemWorld :=
  mkMemWorld {[ "version.go" := rendered "main" "1.10.0" "VERSION";
                "main.go" := "package main" +:+ nl ]}
             {[ "." := ["main.go"; "version.go"] ]} [].

(** * Theorems *)

(** ** Strings *)

Lemma append_cons (a : ascii) (s1 s2 : string) :
  String a s1 +:+ s2 = String a (s1 +:+ s2).
Proof. reflexivity. Qed.

Lemma append_assoc (s1 s2 s3 : string) :
  (s1 +:+ s2) +:+ s3 = s1 +:+ (s2 +:+ s3).
Proof.
  induction s1 as [|a s1 IH]; [reflexivity|].
  rewrite !append_cons, IH. reflexivity.
Qed.

Lemma append_nil_r (s : string) : s +:+ EmptyString = s.
Proof.
  induction s as [|a s IH]; [reflexivity|].
  rewrite !append_cons, IH. reflexivity.
Qed.

(** ** The matcher on the two patterns *)

Section Repetition.

Lemma consumes_one_class p : consumes_one (OpCharClass p) p (fun _ c => c).
Proof. intros pos s c k. reflexivity. Qed.

Lemma consumes_one_capture n p :
  consumes_one (OpCapture n (OpCharClass p)) p
    (fun a c => <[n := String a EmptyString]> c).
Proof.
  intros pos s c k. simpl. destruct s as [|a s']; [reflexivity|].
  destruct (p a); [|reflexivity].
  replace (S pos - pos)%nat with 1%nat by lia. reflexivity.
Qed.

Variables (r : Regexp) (p : ascii -> bool) (upd : ascii -> caps -> caps).
Hypothesis Hr : consumes_one r p upd.
Variable k : cont.
(** What follows the repetition cannot start with a byte of the class, so
    giving a byte back never helps. *)
Hypothesis Hk : forall pos a s c, p a = true -> k pos (String a s) c = None.

Lemma plus_loop_eat : forall s fuel pos c,
  (String.length s < fuel)%nat ->
  plus_loop (exec r) k fuel pos s c =
  match s with
  | String a s' =>
      if p a then let '(pos', s'', c') := eat p upd (S pos) s' (upd a c) in
                  k pos' s'' c'
      else None
  | EmptyString => None
  end.
Proof.
  induction s as [|a s' IH]; intros fuel pos c Hfuel;
    (destruct fuel as [|fuel']; [simpl in Hfuel; lia|]); simpl.
  - rewrite Hr. reflexivity.
  - rewrite Hr. destruct (p a) eqn:Hpa; [|reflexivity].
    assert (Hlt : (pos <? S pos)%nat = true) by (apply Nat.ltb_lt; lia).
    rewrite Hlt. rewrite IH by (simpl in Hfuel; lia).
    destruct s' as [|b t]; simpl; [reflexivity|].
    destruct (p b) eqn:Hpb.
    + destruct (eat p upd (S (S pos)) t (upd b (upd a c))) as [[pos' s''] c'].
      destruct (k pos' s'' c') eqn:Hres; [reflexivity|].
      apply Hk. exact Hpb.
    + reflexivity.
Qed.

Lemma exec_plus : forall pos s c,
  exec (OpPlus r) pos s c k =
  match s with
  | String a s' =>
      if p a then let '(pos', s'', c') := eat p upd (S pos) s' (upd a c) in
                  k pos' s'' c'
      else None
  | EmptyString => None
  end.
Proof.
  intros.
  change (exec (OpPlus r) pos s c k)
    with (plus_loop (exec r) k (S (String.length s)) pos s c).
  apply plus_loop_eat. lia.
Qed.

End Repetition.

Lemma skip_digits_length s :
  (String.length (skip_digits s) <= String.length s)%nat.
Proof.
  induction s as [|a s IH]; simpl; [lia|].
  destruct (isDigit a); simpl; lia.
Qed.

Lemma eat_class : forall s pos c,
  eat isDigit (fun _ c => c) pos s c =
  (pos + (String.length s - String.length (skip_digits s)), skip_digits s, c)%nat.
Proof.
  induction s as [|a s IH]; intros pos c; simpl.
  - f_equal. f_equal. lia.
  - destruct (isDigit a).
    + rewrite IH. pose proof (skip_digits_length s). do 2 f_equal. lia.
    + simpl. do 2 f_equal. lia.
Qed.

Lemma eat_capture n : forall s pos a c,
  eat isDigit (fun a c => <[n := String a EmptyString]> c) pos s
      (<[n := String a EmptyString]> c) =
  (pos + (String.length s - String.length (skip_digits s)), skip_digits s,
   <[n := String (last_digit a s) EmptyString]> c)%nat.
Proof.
  induction s as [|b s IH]; intros pos a c; simpl.
  - do 2 f_equal. lia.
  - destruct (isDigit b).
    + rewrite insert_insert_eq, IH. pose proof (skip_digits_length s).
      do 2 f_equal. lia.
    + simpl. do 2 f_equal. lia.
Qed.

Lemma prefix_of_length s : prefix_of (String.length s) s = s.
Proof. induction s as [|a s IH]; simpl; congruence. Qed.

Lemma isDigit_not_dot a : isDigit a = true -> Ascii.eqb a dot = false.
Proof.
  intros H. destruct (Ascii.eqb a dot) eqn:E; [|reflexivity].
  apply Ascii.eqb_eq in E. subst a. discriminate H.
Qed.

(** A pattern that starts with [\A] can only match at offset 0. *)
Lemma search_begin_text r : forall s pos,
  pos <> 0%nat -> search (OpConcat OpBeginText r) pos s = None.
Proof.
  induction s as [|a s IH]; intros pos Hpos; simpl; unfold exec_at; simpl;
    destruct (Nat.eqb_spec pos 0); try contradiction; auto.
Qed.

Lemma search_anchored r s :
  search (OpConcat OpBeginText r) 0 s = exec_at (OpConcat OpBeginText r) 0 s.
Proof.
  destruct s as [|a s]; simpl.
  - destruct (exec_at _ _ _); reflexivity.
  - rewrite search_begin_text by lia. destruct (exec_at _ _ _); reflexivity.
Qed.

Lemma exec_concat r1 r2 pos s c k :
  exec (OpConcat r1 r2) pos s c k =
  exec r1 pos s c (fun pos' s' c' => exec r2 pos' s' c' k).
Proof. reflexivity. Qed.

Lemma exec_literal x pos s c k :
  exec (OpLiteral x) pos s c k =
  match s with
  | String a s' => if Ascii.eqb a x then k (S pos) s' c else None
  | EmptyString => None
  end.
Proof. reflexivity. Qed.

Lemma exec_end_text pos s c k :
  exec OpEndText pos s c k =
  match s with EmptyString => k pos s c | _ => None end.
Proof. reflexivity. Qed.

Lemma exec_begin_text s c k : exec OpBeginText 0 s c k = k 0%nat s c.
Proof. reflexivity. Qed.

(** The matcher on [versionRegEx] is the scan [version_fields]. *)
Lemma search_versionRegEx s :
  search versionRegEx 0 s = version_caps s <$> version_fields s.
Proof.
  unfold versionRegEx. rewrite search_anchored. unfold exec_at.
  rewrite exec_concat, exec_begin_text, exec_concat.
  rewrite (exec_plus _ _ _ (consumes_one_capture 1 isDigit)).
  2:{ intros pos a t c Ha. rewrite exec_concat, exec_literal.
      rewrite (isDigit_not_dot _ Ha). reflexivity. }
  destruct s as [|a s1]; [reflexivity|]. unfold version_fields.
  destruct (isDigit a) eqn:Ha; [|reflexivity].
  rewrite eat_capture. cbv iota beta.
  pose proof (skip_digits_length s1) as Hlen1.
  destruct (skip_digits s1) as [|x1 t1] eqn:Hs1; [reflexivity|].
  rewrite exec_concat, exec_literal. 
  destruct t1 as [|d t2].
  { destruct (Ascii.eqb x1 dot); reflexivity. }
  destruct t2 as [|x2 t3].
  { destruct (Ascii.eqb x1 dot); [|reflexivity].
    rewrite exec_concat, (consumes_one_capture 2 isDigit).
    destruct (isDigit d); reflexivity. }
  destruct t3 as [|b s3].
  { destruct (Ascii.eqb x1 dot); [|reflexivity].
    rewrite exec_concat, (consumes_one_capture 2 isDigit).
    destruct (isDigit d); [|reflexivity].
    rewrite exec_concat, exec_literal.
    destruct (Ascii.eqb x2 dot); [|reflexivity].
    rewrite exec_concat.
    rewrite (exec_plus _ _ _ (consumes_one_capture 3 isDigit)); [reflexivity|].
    intros. reflexivity. }
  destruct (Ascii.eqb x1 dot); [|reflexivity].
  rewrite exec_concat, (consumes_one_capture 2 isDigit).
  destruct (isDigit d); [|reflexivity].
  rewrite exec_concat, exec_literal.
  destruct (Ascii.eqb x2 dot); [|reflexivity].
  rewrite exec_concat.
  rewrite (exec_plus _ _ _ (consumes_one_capture 3 isDigit)) by reflexivity.
  destruct (isDigit b); [|reflexivity]. cbn [andb].
  rewrite eat_capture. cbv iota beta.
  pose proof (skip_digits_length s3) as Hlen3.
  destruct (skip_digits s3) as [|y t] eqn:Hs3; [|reflexivity].
  rewrite exec_end_text. cbn [fmap option_fmap option_map version_caps].
  do 2 f_equal. simpl in Hlen1, Hlen3.
  match goal with |- prefix_of ?n ?s = _ =>
    replace n with (String.length s) by (cbn [String.length]; lia) end.
  apply prefix_of_length.
Qed.

(** The matcher on the pattern of the specification is the scan
    [is_version_triple]. *)
Lemma search_specRegEx s :
  search specRegEx 0 s =
  if is_version_triple s then Some (<[0%nat := s]> ∅) else None.
Proof.
  unfold specRegEx. rewrite search_anchored. unfold exec_at.
  rewrite exec_concat, exec_begin_text, exec_concat.
  rewrite (exec_plus _ _ _ (consumes_one_class isDigit)).
  2:{ intros pos a t c Ha. rewrite exec_concat, exec_literal.
      rewrite (isDigit_not_dot _ Ha). reflexivity. }
  destruct s as [|a s1]; [reflexivity|]. unfold is_version_triple.
  destruct (isDigit a) eqn:Ha; [|reflexivity].
  rewrite eat_class. cbv iota beta. cbn [andb].
  pose proof (skip_digits_length s1) as Hlen1.
  destruct (skip_digits s1) as [|x1 t1] eqn:Hs1; [reflexivity|].
  rewrite exec_concat, exec_literal.
  destruct (Ascii.eqb x1 dot); [|destruct t1; reflexivity].
  rewrite exec_concat.
  rewrite (exec_plus _ _ _ (consumes_one_class isDigit)).
  2:{ intros pos a' t c Ha'. rewrite exec_concat, exec_literal.
      rewrite (isDigit_not_dot _ Ha'). reflexivity. }
  destruct t1 as [|b s2]; [reflexivity|].
  destruct (isDigit b); [|reflexivity].
  rewrite eat_class. cbv iota beta. cbn [andb].
  pose proof (skip_digits_length s2) as Hlen2.
  destruct (skip_digits s2) as [|x2 t2] eqn:Hs2; [reflexivity|].
  rewrite exec_concat, exec_literal.
  destruct (Ascii.eqb x2 dot); [|destruct t2; reflexivity].
  rewrite exec_concat.
  rewrite (exec_plus _ _ _ (consumes_one_class isDigit)) by reflexivity.
  destruct t2 as [|c0 s3]; [reflexivity|].
  destruct (isDigit c0); [|reflexivity].
  rewrite eat_class. cbv iota beta. cbn [andb].
  pose proof (skip_digits_length s3) as Hlen3.
  destruct (skip_digits s3) as [|y t] eqn:Hs3; [|reflexivity].
  rewrite exec_end_text. do 2 f_equal. simpl in Hlen1, Hlen2, Hlen3.
  match goal with |- prefix_of ?n ?s = _ =>
    replace n with (String.length s) by (cbn [String.length]; lia) end.
  apply prefix_of_length.
Qed.

Lemma MatchString_versionRegEx s :
  MatchString versionRegEx s =
  match version_fields s with Some _ => true | None => false end.
Proof.
  unfold MatchString. rewrite search_versionRegEx.
  destruct (version_fields s); reflexivity.
Qed.

Lemma MatchString_specRegEx s : MatchString specRegEx s = is_version_triple s.
Proof.
  unfold MatchString. rewrite search_specRegEx.
  destruct (is_version_triple s); reflexivity.
Qed.

Lemma skip_digits_dot s : skip_digits (String dot s) = String dot s.
Proof. reflexivity. Qed.

(** Whatever the tool's pattern accepts, the pattern of the specification
    accepts as well. *)
Lemma version_fields_triple s f :
  version_fields s = Some f -> is_version_triple s = true.
Proof.
  unfold version_fields, is_version_triple.
  destruct s as [|a s1]; [discriminate|].
  destruct (isDigit a); [|discriminate].
  destruct (skip_digits s1) as [|x1 [|d [|x2 [|b s3]]]]; try discriminate.
  destruct (Ascii.eqb_spec x1 dot) as [->|]; [|discriminate].
  destruct (isDigit d); [|discriminate].
  destruct (Ascii.eqb_spec x2 dot) as [->|]; [|discriminate].
  destruct (isDigit b) eqn:Hb; [|discriminate]. cbn [andb].
  rewrite skip_digits_dot, Ascii.eqb_refl, Hb. cbn [andb].
  destruct (skip_digits s3); [reflexivity|discriminate].
Qed.

Lemma versionRegEx_within_spec s :
  MatchString versionRegEx s = true -> MatchString specRegEx s = true.
Proof.
  rewrite MatchString_versionRegEx, MatchString_specRegEx.
  destruct (version_fields s) as [f|] eqn:E; [|discriminate].
  intros _. exact (version_fields_triple _ _ E).
Qed.

(** The leading digits of an input and the rest of it. *)
Lemma skip_digits_split s :
  exists ds, all_digits ds = true /\ s = ds +:+ skip_digits s.
Proof.
  induction s as [|a s (ds & Hds & IH)]; [exists EmptyString; auto|].
  cbn [skip_digits]. destruct (isDigit a) eqn:Ha.
  - exists (String a ds). cbn [all_digits]. rewrite Ha, Hds.
    split; [reflexivity|]. change (String a ds +:+ skip_digits s)
      with (String a (ds +:+ skip_digits s)). rewrite <- IH. reflexivity.
  - exists EmptyString. auto.
Qed.

Lemma skip_digits_all s : all_digits s = true -> skip_digits s = EmptyString.
Proof.
  induction s as [|a s IH]; [reflexivity|]. cbn [all_digits skip_digits].
  intros H. apply andb_prop in H as [-> Hs]. exact (IH Hs).
Qed.

Lemma skip_digits_app ds rest :
  all_digits ds = true ->
  skip_digits (ds +:+ String dot rest) = String dot rest.
Proof.
  induction ds as [|a ds IH]; [reflexivity|]. cbn [all_digits].
  intros H. apply andb_prop in H as [Ha Hs].
  change (String a ds +:+ String dot rest)
    with (String a (ds +:+ String dot rest)).
  cbn [skip_digits]. rewrite Ha. exact (IH Hs).
Qed.

(** The scan [is_version_triple] accepts exactly the strings M.N.P with
    three decimal numerals. *)
Lemma is_version_triple_iff s :
  is_version_triple s = true <->
  exists m n p,
    numeral m = true /\ numeral n = true /\ numeral p = true /\
    s = m +:+ "." +:+ n +:+ "." +:+ p.
Proof.
  split.
  - unfold is_version_triple. destruct s as [|a s1]; [discriminate|].
    destruct (isDigit a) eqn:Ha; [|discriminate]. cbn [andb].
    destruct (skip_digits_split s1) as (ds1 & Hds1 & Hs1).
    destruct (skip_digits s1) as [|x1 [|b s2]]; try discriminate.
    destruct (Ascii.eqb_spec x1 dot) as [->|]; [|discriminate].
    destruct (isDigit b) eqn:Hb; [|discriminate]. cbn [andb].
    destruct (skip_digits_split s2) as (ds2 & Hds2 & Hs2).
    destruct (skip_digits s2) as [|x2 [|c s3]]; try discriminate.
    destruct (Ascii.eqb_spec x2 dot) as [->|]; [|discriminate].
    destruct (isDigit c) eqn:Hc; [|discriminate]. cbn [andb].
    destruct (skip_digits_split s3) as (ds3 & Hds3 & Hs3).
    destruct (skip_digits s3); [|discriminate]. intros _.
    exists (String a ds1), (String b ds2), (String c ds3).
    cbn [numeral all_digits]. rewrite Ha, Hb, Hc, Hds1, Hds2, Hds3.
    repeat split. rewrite append_nil_r in Hs3. subst s3 s2 s1. reflexivity.
  - intros (m & n & p & Hm & Hn & Hp & ->).
    destruct m as [|a m]; [discriminate|].
    destruct n as [|b n]; [discriminate|].
    destruct p as [|c p]; [discriminate|].
    cbn [numeral all_digits] in Hm, Hn, Hp.
    apply andb_prop in Hm as [Ha Hm]. apply andb_prop in Hn as [Hb Hn].
    apply andb_prop in Hp as [Hc Hp].
    change (is_version_triple
              (String a (m +:+ String dot
                 (String b (n +:+ String dot (String c p))))) = true).
    cbn [is_version_triple]. rewrite Ha, (skip_digits_app _ _ Hm).
    rewrite Ascii.eqb_refl, Hb, (skip_digits_app _ _ Hn).
    rewrite Ascii.eqb_refl, Hc, (skip_digits_all _ Hp). reflexivity.
Qed.

(** ** The incrementer *)

Lemma last_digit_isDigit : forall s a,
  isDigit a = true -> isDigit (last_digit a s) = true.
Proof.
  induction s as [|b s IH]; intros a Ha; simpl; [exact Ha|].
  destruct (isDigit b) eqn:Hb; [apply IH; exact Hb|exact Ha].
Qed.

Lemma version_fields_digits s l1 d l3 :
  version_fields s = Some (l1, d, l3) ->
  isDigit l1 = true /\ isDigit d = true /\ isDigit l3 = true.
Proof.
  unfold version_fields.
  destruct s as [|a s1]; [discriminate|].
  destruct (isDigit a) eqn:Ha; [|discriminate].
  destruct (skip_digits s1) as [|x1 [|d' [|x2 [|b s3]]]]; try discriminate.
  destruct (Ascii.eqb x1 dot); [|discriminate].
  destruct (isDigit d') eqn:Hd; [|discriminate].
  destruct (Ascii.eqb x2 dot); [|discriminate].
  destruct (isDigit b) eqn:Hb; [|discriminate]. cbn [andb].
  destruct (skip_digits s3); [|discriminate].
  intros [= <- <- <-]. auto using last_digit_isDigit.
Qed.

(** [Atoi] cannot fail on a captured digit: the three error returns of
    [getNextVersion] that follow [Atoi] are never taken. *)
Lemma Atoi_digit a :
  isDigit a = true -> Atoi (String a EmptyString) = (digit_value a, None).
Proof.
  destruct a as [[] [] [] [] [] [] [] []]; intros H;
    solve [discriminate H | reflexivity].
Qed.

Lemma version_caps_submatches s l1 d l3 :
  map (fun i => default EmptyString (version_caps s (l1, d, l3) !! i))
      (seq 0 4) =
  [s; String l1 EmptyString; String d EmptyString; String l3 EmptyString].
Proof.
  unfold version_caps. cbn [seq map].
  repeat f_equal; simplify_map_eq; reflexivity.
Qed.

(** The incrementer in one equation: the captured digits, bumped by the
    mode and printed, or the format error. *)
Lemma getNextVersion_eq version mode :
  getNextVersion version mode =
  match version_fields version with
  | Some (l1, d, l3) =>
      (render_version (bump mode (digit_value l1, digit_value d, digit_value l3)),
       None)
  | None => (EmptyString, Some (errorString (format_message version)))
  end.
Proof.
  unfold getNextVersion. rewrite MatchString_versionRegEx.
  unfold FindStringSubmatch. rewrite search_versionRegEx.
  destruct (version_fields version) as [[[l1 d] l3]|] eqn:E; [|reflexivity].
  destruct (version_fields_digits _ _ _ _ E) as (H1 & H2 & H3).
  cbn [fmap option_fmap option_map default].
  rewrite version_caps_submatches. unfold id. cbn [nth].
  rewrite (Atoi_digit _ H1), (Atoi_digit _ H2), (Atoi_digit _ H3).
  unfold bump, render_version.
  destruct (String.eqb mode "PATCH"); [reflexivity|].
  destruct (String.eqb mode "MINOR"); [reflexivity|].
  destruct (String.eqb mode "MAJOR"); reflexivity.
Qed.

(** No error is returned after a match, whatever the mode. *)
Lemma getNextVersion_matched version mode :
  MatchString versionRegEx version = true ->
  exists out, getNextVersion version mode = (out, None).
Proof.
  rewrite MatchString_versionRegEx, getNextVersion_eq.
  destruct (version_fields version) as [[[l1 d] l3]|]; [eauto|discriminate].
Qed.

(** A digit prints as itself, and adding one to it does not wrap. *)
Lemma fmt_d_digit a :
  isDigit a = true -> fmt_d (digit_value a) = String a EmptyString.
Proof.
  destruct a as [[] [] [] [] [] [] [] []]; intros H;
    solve [discriminate H | reflexivity].
Qed.

Lemma digit_value_range a :
  isDigit a = true -> (0 <= digit_value a <= 9)%Z.
Proof.
  unfold isDigit, digit_value. intros H. apply andb_prop in H as [H1 H2].
  apply Nat.leb_le in H1, H2. lia.
Qed.

Lemma int_add_small v : (0 <= v <= 9)%Z -> int_add v 1 = (v + 1)%Z.
Proof.
  intros H. unfold int_add, wrap_int.
  rewrite Z.mod_small by lia. lia.
Qed.

(** A mode that is none of the three is ignored: the captured digits are
    printed as they are. *)
Lemma getNextVersion_unknown_mode version mode l1 d l3 :
  version_fields version = Some (l1, d, l3) ->
  mode <> "PATCH" -> mode <> "MINOR" -> mode <> "MAJOR" ->
  getNextVersion version mode =
  (String l1 (String dot (String d (String dot (String l3 EmptyString)))), None).
Proof.
  intros E Hp Hmi Hma. rewrite getNextVersion_eq, E.
  destruct (version_fields_digits _ _ _ _ E) as (H1 & H2 & H3).
  unfold bump.
  apply String.eqb_neq in Hp, Hmi, Hma. rewrite Hp, Hmi, Hma.
  unfold render_version.
  rewrite (fmt_d_digit _ H1), (fmt_d_digit _ H2), (fmt_d_digit _ H3).
  reflexivity.
Qed.

(** On three single digits the incrementer does what its error message
    promises: the digit that the mode selects goes up by one, the other two
    stay. *)
Lemma getNextVersion_single_digits l1 d l3 mode :
  isDigit l1 = true -> isDigit d = true -> isDigit l3 = true ->
  getNextVersion
    (String l1 (String dot (String d (String dot (String l3 EmptyString)))))
    mode =
  (render_version (bump mode (digit_value l1, digit_value d, digit_value l3)),
   None).
Proof.
  intros H1 H2 H3. rewrite getNextVersion_eq.
  cbn [version_fields skip_digits last_digit]. rewrite H1.
  change (isDigit dot) with false. cbn iota. rewrite !Ascii.eqb_refl, H2, H3.
  reflexivity.
Qed.

(** C8: the three scenarios of the specification: 1.0.0 in mode PATCH gives
    1.0.1, 1.2.9 in mode MINOR gives 1.3.9, 2.5.7 in mode MAJOR gives 3.5.7,
    each with a nil error. *)
Theorem getNextVersion_scenarios :
  getNextVersion "1.0.0" "PATCH" = ("1.0.1", None) /\
  getNextVersion "1.2.9" "MINOR" = ("1.3.9", None) /\
  getNextVersion "2.5.7" "MAJOR" = ("3.5.7", None).
Proof. repeat split; vm_compute; reflexivity. Qed.

(** C2: an input that the pattern [^\d+\.\d+\.\d+$] does not match gets the
    format error, whose message contains the input, and the empty string in
    place of a version. *)
Theorem getNextVersion_format_error version mode :
  MatchString specRegEx version = false ->
  getNextVersion version mode =
    (EmptyString, Some (errorString (format_message version))) /\
  Contains (format_message version) version.
Proof.
  intros Hspec. split.
  - rewrite getNextVersion_eq.
    destruct (version_fields version) as [f|] eqn:E; [|reflexivity].
    rewrite MatchString_specRegEx, (version_fields_triple _ _ E) in Hspec.
    discriminate Hspec.
  - exists "Version format should be [number.number.number] but was [", "]".
    reflexivity.
Qed.

(** Scenario E: the input 1.x.0. *)
Lemma getNextVersion_format_error_witness :
  MatchString specRegEx "1.x.0" = false /\
  getNextVersion "1.x.0" "PATCH" =
    (EmptyString, Some (errorString (format_message "1.x.0"))) /\
  Contains (format_message "1.x.0") "1.x.0".
Proof.
  split; [vm_compute; reflexivity|].
  apply (getNextVersion_format_error "1.x.0" "PATCH"). vm_compute. reflexivity.
Defined.

(** C1, on inputs with more than one digit in a component, each of them
    three decimal numerals separated by dots: of the first and of the last
    number only the final digit is captured, and a second digit in the
    middle number is not matched at all.  1.0.10 in mode PATCH gives 1.0.1
    and not 1.0.11, 10.2.3 in mode MAJOR gives 1.2.3 and not 11.2.3, and
    1.10.0 is turned down with the format error. *)
Theorem getNextVersion_multi_digit :
  (MatchString specRegEx "1.0.10" = true /\
   getNextVersion "1.0.10" "PATCH" = ("1.0.1", None)) /\
  (MatchString specRegEx "10.2.3" = true /\
   getNextVersion "10.2.3" "MAJOR" = ("1.2.3", None)) /\
  (MatchString specRegEx "1.10.0" = true /\
   getNextVersion "1.10.0" "MINOR" =
     (EmptyString, Some (errorString (format_message "1.10.0")))).
Proof. repeat split; vm_compute; reflexivity. Qed.

(** C10: for a version that the pattern accepts and a mode that is none of
    MAJOR, MINOR and PATCH, the incrementer returns without error, and what
    it returns is the three components as they were parsed from the match,
    each printed unchanged: the switch touches none of them and the mode is
    not reported. *)
Theorem getNextVersion_unknown_mode_ignored (version mode : string) :
  MatchString versionRegEx version = true ->
  mode <> "MAJOR" -> mode <> "MINOR" -> mode <> "PATCH" ->
  exists matches majorVersion minorVersion patchVersion,
    FindStringSubmatch versionRegEx 3 version = Some matches /\
    Atoi (nth 1 matches EmptyString) = (majorVersion, None) /\
    Atoi (nth 2 matches EmptyString) = (minorVersion, None) /\
    Atoi (nth 3 matches EmptyString) = (patchVersion, None) /\
    getNextVersion version mode =
      (fmt_d majorVersion +:+ "." +:+ fmt_d minorVersion +:+ "."
         +:+ fmt_d patchVersion, None).
Proof.
  intros Hmatch Hma Hmi Hp. rewrite MatchString_versionRegEx in Hmatch.
  destruct (version_fields version) as [[[l1 d] l3]|] eqn:E;
    [|discriminate Hmatch].
  destruct (version_fields_digits _ _ _ _ E) as (H1 & H2 & H3).
  exists [version; String l1 EmptyString; String d EmptyString;
          String l3 EmptyString],
    (digit_value l1), (digit_value d), (digit_value l3).
  split.
  { unfold FindStringSubmatch. rewrite search_versionRegEx, E.
    cbn [fmap option_fmap option_map]. rewrite version_caps_submatches.
    reflexivity. }
  cbn [nth]. rewrite (Atoi_digit _ H1), (Atoi_digit _ H2), (Atoi_digit _ H3).
  repeat (split; [reflexivity|]).
  rewrite getNextVersion_eq, E. unfold bump.
  apply String.eqb_neq in Hp, Hmi, Hma. rewrite Hp, Hmi, Hma. reflexivity.
Qed.

(** The version 1.2.3 under the mode NONE comes back as 1.2.3. *)
Lemma getNextVersion_unknown_mode_ignored_witness :
  getNextVersion "1.2.3" "NONE" = ("1.2.3", None).
Proof.
  destruct (getNextVersion_unknown_mode_ignored "1.2.3" "NONE")
    as (matches & major & minor & patch & Hfind & H1 & H2 & H3 & Hnext);
    [vm_compute; reflexivity|discriminate|discriminate|discriminate|].
  vm_compute in Hfind. injection Hfind as <-.
  vm_compute in H1, H2, H3.
  injection H1 as <-. injection H2 as <-. injection H3 as <-.
  exact Hnext.
Defined.

(** ** The locator *)

Section LocatorFacts.

Context {World : Type} {os : OS World} {parser : GoParser} {flags : Flags}.

Lemma first_return_none {A B : Type} (body : A -> option B) l :
  (forall x, In x l -> body x = None) -> first_return body l = None.
Proof.
  induction l as [|x l IH]; intros H; simpl; [reflexivity|].
  rewrite (H x) by (left; reflexivity).
  apply IH. intros y Hy. apply H. right. exact Hy.
Qed.

Lemma existsb_false {A : Type} (p : A -> bool) l x :
  existsb p l = false -> In x l -> p x = false.
Proof.
  intros H Hx. destruct (p x) eqn:E; [|reflexivity].
  rewrite <- H. symmetry. apply existsb_exists. exists x. split; assumption.
Qed.

(** Without a constant declaration that names the flag, the loops of the
    locator run to their end. *)
Lemma findInDecls_undeclared decls :
  declares_constant decls = false -> findInDecls decls = None.
Proof.
  intros H. apply first_return_none. intros decl Hdecl.
  pose proof (existsb_false _ _ _ H Hdecl) as Hd.
  destruct decl as [|Tok Specs|]; try reflexivity.
  destruct (token.eqb Tok token.CONST); [|reflexivity]. simpl in Hd.
  apply first_return_none. intros spec Hspec.
  pose proof (existsb_false _ _ _ Hd Hspec) as Hs.
  destruct spec as [|Names Values|]; try reflexivity.
  apply first_return_none. intros name Hname.
  rewrite (existsb_false _ _ _ Hs Hname). reflexivity.
Qed.

(** C3: when the version file cannot be read or parsed, the locator returns
    1.0.0 and a nil error if initialization is requested, and the error of
    the parser in place of a version if it is not. *)
Theorem getCurrentVersion_no_version_file (w : World) (path : string)
    (err : error) :
  ParseFile w (filepath.Join [path; "version.go"]) = inr err ->
  (exists w', getCurrentVersion w path true = ("1.0.0", None, w')) /\
  getCurrentVersion w path false = (EmptyString, Some err, w).
Proof.
  intros H. unfold getCurrentVersion. rewrite H. split; [|reflexivity].
  eexists. reflexivity.
Qed.

(** C6: when the version file parses and no constant declaration in it has
    the requested name, the locator returns an error whose message contains
    the name and the path of the file, whether or not initialization is
    requested. *)
Theorem getCurrentVersion_no_constant (w : World) (path : string)
    (lazyInit : bool) (f : ast.File) :
  ParseFile w (filepath.Join [path; "version.go"]) = inl f ->
  declares_constant (ast.Decls f) = false ->
  exists err,
    getCurrentVersion w path lazyInit = (EmptyString, Some err, w) /\
    Contains (Error err) variable /\
    Contains (Error err) (filepath.Join [path; "version.go"]).
Proof.
  intros Hf Hdecl. unfold getCurrentVersion.
  rewrite Hf, (findInDecls_undeclared _ Hdecl).
  eexists. split; [reflexivity|]. cbn [Error]. split.
  - exists "Could not find version constant [",
      ("] in file [" +:+ filepath.Join [path; "version.go"] +:+ "]").
    reflexivity.
  - exists ("Could not find version constant [" +:+ variable +:+ "] in file ["),
      "]".
    rewrite !append_assoc. reflexivity.
Qed.

(** The answer of the locator is a function of what parsing the file
    [Join(path, "version.go")] gives. *)
Lemma getCurrentVersion_reads (w1 w2 : World) (path : string)
    (lazyInit : bool) :
  ParseFile w1 (filepath.Join [path; "version.go"]) =
  ParseFile w2 (filepath.Join [path; "version.go"]) ->
  fst (getCurrentVersion w1 path lazyInit) =
  fst (getCurrentVersion w2 path lazyInit).
Proof.
  intros H. unfold getCurrentVersion. rewrite H.
  destruct (ParseFile w2 _) as [f|e].
  - destruct (findInDecls (ast.Decls f)); reflexivity.
  - destruct lazyInit; reflexivity.
Qed.

(** The locator only prints. *)
Lemma getCurrentVersion_world (w : World) path lazyInit version e w' :
  getCurrentVersion w path lazyInit = (version, e, w') ->
  w' = w \/ exists s, w' = Printf w s.
Proof.
  unfold getCurrentVersion.
  destruct (ParseFile w _) as [f|err].
  - destruct (findInDecls (ast.Decls f)); intros [= _ _ <-]; auto.
  - destruct lazyInit; [|intros [= _ _ <-]; auto].
    destruct verbose; intros [= _ _ <-]; eauto.
Qed.

End LocatorFacts.

(** ** The renderer *)

(** C5, as worded: the layout with the blank line between the comment and
    the package header is not what is rendered for the package main, the
    constant VERSION and the version 1.0.0. *)
Lemma rendered_not_spec_layout :
  rendered "main" "1.0.0" "VERSION" <> spec_layout "main" "VERSION" "1.0.0".
Proof. intros H. vm_compute in H. discriminate H. Qed.

(** C5, amended: the rendered text is the comment line, then the package
    header, then a blank line, then the constant block that binds the name
    to the quoted version; neither step returns an error. *)
Theorem rendered_layout (pkg version variable : string) :
  writeHeader EmptyString variable = (comment_line, None) /\
  generateContent pkg version variable comment_line =
    (rendered pkg version variable, None) /\
  rendered pkg version variable =
    comment_line +:+ package_line pkg +:+ nl +:+ const_block variable version.
Proof.
  split; [reflexivity|]. split; [reflexivity|].
  unfold rendered, generateContent, writeHeader, writeString, Sprintln,
    comment_line, package_line, const_block. cbn [fst b err].
  rewrite !append_assoc, !append_cons, !append_assoc. reflexivity.
Qed.

(** ** The package namer and the orchestration *)

Section RunFacts.

Context {World : Type} {os : OS World} {parser : GoParser} {flags : Flags}.

Lemma ParseFile_Printf (w : World) (s name : string) :
  ParseFile (Printf w s) name = ParseFile w name.
Proof. unfold ParseFile. rewrite Printf_ReadFile. reflexivity. Qed.

Lemma parseFiles_Printf (w : World) (s : string) : forall files astFiles,
  parseFiles (Printf w s) files astFiles = parseFiles w files astFiles.
Proof.
  induction files as [|file files IH]; intros astFiles; simpl; [reflexivity|].
  destruct (HasSuffix file ".go"); simpl; [|apply IH].
  rewrite ParseFile_Printf. destruct (ParseFile w file); [apply IH|reflexivity].
Qed.

Lemma parsePackage_Printf (w : World) (s directory : string) :
  parsePackage (Printf w s) directory = parsePackage w directory.
Proof.
  unfold parsePackage. rewrite Printf_ReadDir.
  destruct (ReadDir w directory); [|reflexivity].
  rewrite parseFiles_Printf. reflexivity.
Qed.

(** The loop over the listing when every source file parses. *)
Lemma parseFiles_all (w : World) : forall files astFiles parsed,
  map (ParseFile w) (source_names files) = map inl parsed ->
  parseFiles w files astFiles = Return (astFiles ++ parsed)%list.
Proof.
  unfold source_names.
  induction files as [|file files IH]; intros astFiles parsed H; simpl in *.
  - destruct parsed; [|discriminate H]. rewrite app_nil_r. reflexivity.
  - destruct (HasSuffix file ".go"); simpl in *; [|apply IH; exact H].
    destruct parsed as [|f parsed]; [discriminate H|].
    injection H as Hf Hrest. rewrite Hf, (IH _ _ Hrest), <- app_assoc.
    reflexivity.
Qed.

(** The loop over the listing when some source file does not parse. *)
Lemma parseFiles_error (w : World) : forall files astFiles e,
  In (inr e) (map (ParseFile w) (source_names files)) ->
  exists msg, parseFiles w files astFiles = Exit msg.
Proof.
  unfold source_names.
  induction files as [|file files IH]; intros astFiles e H; simpl in *.
  - contradiction.
  - destruct (HasSuffix file ".go"); simpl in *; [|eapply IH; exact H].
    destruct (ParseFile w file) as [f|e'] eqn:E; [|eauto].
    destruct H as [H|H]; [discriminate H|]. eapply IH. exact H.
Qed.

(** C7, amended.  The process exits if the directory cannot be listed.  For
    a listing whose entries read the same under their bare name, as the loop
    opens them, and under their name in the directory: the process exits if
    no entry ends in .go, or if any source file fails to parse, the first or
    a later one; when they all parse, the package name of the first one is
    returned. *)
Theorem parsePackage_outcome (w : World) (directory : string) :
  (forall err, ReadDir w directory = inr err ->
     parsePackage w directory =
     Exit ("Failed to read directory [" +:+ directory +:+ "]: " +:+ Error err))
  /\
  (forall files, ReadDir w directory = inl files ->
     (forall name, In name files ->
        ParseFile w name = ParseFile w (filepath.Join [directory; name])) ->
     (sources w directory files = [] ->
        parsePackage w directory =
        Exit (directory +:+ ": no buildable Go files")) /\
     (forall first rest,
        sources w directory files = map inl (first :: rest) ->
        parsePackage w directory = Return (ast.Name first)) /\
     (forall e, In (inr e) (sources w directory files) ->
        exists msg, parsePackage w directory = Exit msg)).
Proof.
  split.
  - intros err H. unfold parsePackage. rewrite H. reflexivity.
  - intros files Hdir Hcwd.
    assert (Hsrc : map (ParseFile w) (source_names files) =
                   sources w directory files).
    { unfold sources. apply map_ext_in. intros name Hname. apply Hcwd.
      unfold source_names in Hname. apply filter_In in Hname. tauto. }
    unfold parsePackage. rewrite Hdir. repeat split.
    + intros Hnone. rewrite Hnone in Hsrc.
      rewrite (parseFiles_all w files [] [] Hsrc). reflexivity.
    + intros first rest Hall. rewrite Hall in Hsrc.
      rewrite (parseFiles_all w files [] _ Hsrc). reflexivity.
    + intros e He. rewrite <- Hsrc in He.
      destruct (parseFiles_error w files [] e He) as [msg ->]. eauto.
Qed.

Lemma parsePackage_announce (w w1 : World) version next directory :
  w1 = w \/ (exists s, w1 = Printf w s) ->
  parsePackage (announce w1 version next) directory = parsePackage w directory.
Proof.
  intros Hw1. unfold announce.
  assert (H1 : parsePackage w1 directory = parsePackage w directory).
  { destruct Hw1 as [->|[s ->]]; [reflexivity|apply parsePackage_Printf]. }
  destruct verbose; [|exact H1].
  rewrite !parsePackage_Printf. exact H1.
Qed.

(** C9: the version is read from the file [Join(path, "version.go")] and
    the result is written to [Dir(path) + "/version.go"].  When the file
    [Join(path, "version.go")] parses and the loops of the locator find the
    version in it, and the incrementer, the package namer and the write
    succeed, the run returns nil, it is the increment of that version which
    is rendered, the write goes to [Dir(path) + "/version.go"], and that
    file holds the rendered text afterwards, whatever it held before. *)
Theorem run_output_path (variable mode : string) (lazyInit : bool)
    (w w2 : World) (path : string) (f : ast.File)
    (version next pkg : string) :
  ParseFile w (filepath.Join [path; "version.go"]) = inl f ->
  findInDecls (ast.Decls f) = Some version ->
  getNextVersion version mode = (next, None) ->
  parsePackage w path = Return pkg ->
  WriteFile (announce w version next) (filepath.Dir path +:+ "/version.go")
    (rendered pkg next variable) = (w2, None) ->
  run variable [path] mode lazyInit w = (w2, Return None) /\
  ReadFile w2 (filepath.Dir path +:+ "/version.go") =
    inl (rendered pkg next variable).
Proof.
  intros Hparse Hfound Hnext Hpkg Hwrite.
  split; [|exact (WriteFile_ReadFile _ _ _ _ Hwrite)].
  assert (Hcur : getCurrentVersion w path lazyInit = (version, None, w)).
  { unfold getCurrentVersion. rewrite Hparse, Hfound. reflexivity. }
  pose proof (parsePackage_announce w w version next path
                (or_introl eq_refl)) as Hpkg'.
  rewrite Hpkg in Hpkg'. unfold announce in Hpkg', Hwrite.
  cbn [run]. unfold runPath. rewrite Hcur, Hnext.
  cbn [writeHeader writeString err b].
  destruct verbose.
  + rewrite Hpkg'. cbn [generateContent].
    unfold rendered in Hwrite. cbn in Hwrite. cbn. rewrite Hwrite.
    reflexivity.
  + rewrite Hpkg'. cbn [generateContent].
    unfold rendered in Hwrite. cbn in Hwrite. cbn. rewrite Hwrite.
    reflexivity.
Qed.

End RunFacts.

(** ** Rendering and locating again *)

Lemma scan_app : forall s1 s2 m,
  GoFragment.scan m (s1 +:+ s2) =
  match scan_steps m s1 with
  | Some (ts, m') =>
      match GoFragment.scan m' s2 with
      | Some ts' => Some (ts ++ ts')%list
      | None => None
      end
  | None => None
  end.
Proof.
  induction s1 as [|a s1 IH]; intros s2 m.
  - change (EmptyString +:+ s2) with s2. cbn [scan_steps].
    destruct (GoFragment.scan m s2); reflexivity.
  - rewrite append_cons. cbn [GoFragment.scan scan_steps].
    destruct (GoFragment.step m a) as [[ts m']|]; [|reflexivity].
    rewrite IH. destruct (scan_steps m' s1) as [[ts' m'']|]; [|reflexivity].
    destruct (GoFragment.scan m'' s2); [|reflexivity].
    rewrite app_assoc. reflexivity.
Qed.

Lemma scan_steps_word : forall s acc,
  word_bytes s = true ->
  scan_steps (GoFragment.InWord acc) s = Some ([], GoFragment.InWord (acc +:+ s)).
Proof.
  induction s as [|a s IH]; intros acc H.
  - rewrite append_nil_r. reflexivity.
  - cbn [word_bytes] in H. apply andb_prop in H as [Ha Hs].
    cbn [scan_steps GoFragment.step]. rewrite Ha, (IH _ Hs).
    rewrite append_assoc. reflexivity.
Qed.

Lemma start_letter a semi :
  GoFragment.isLetter a = true ->
  GoFragment.start semi a = Some ([], GoFragment.InWord (String a EmptyString)).
Proof.
  destruct a as [[] [] [] [] [] [] [] []]; intros H;
    solve [discriminate H | reflexivity].
Qed.

Lemma identifier_inv s :
  identifier s = true ->
  GoFragment.is_keyword s = false /\
  exists a s', s = String a s' /\ GoFragment.isLetter a = true /\
               word_bytes s' = true.
Proof.
  unfold identifier. destruct s as [|a s']; [discriminate|].
  intros H. apply andb_prop in H as [H Hk]. apply andb_prop in H as [Ha Hs].
  apply negb_true_iff in Hk. eauto 6.
Qed.

Lemma scan_steps_identifier s semi :
  identifier s = true ->
  scan_steps (GoFragment.Between semi) s = Some ([], GoFragment.InWord s).
Proof.
  intros H. destruct (identifier_inv _ H) as (_ & a & s' & -> & Ha & Hs).
  cbn [scan_steps GoFragment.step]. rewrite (start_letter _ _ Ha).
  rewrite (scan_steps_word _ _ Hs). reflexivity.
Qed.

Lemma word_identifier s :
  GoFragment.is_keyword s = false -> GoFragment.word s = GoFragment.IDENT s.
Proof.
  intros H. unfold GoFragment.word. rewrite H.
  destruct (String.eqb_spec s "package") as [->|_]; [discriminate H|].
  destruct (String.eqb_spec s "const") as [->|_]; [discriminate H|].
  reflexivity.
Qed.

(** The byte after an identifier, when it cannot go on the word. *)
Lemma step_identifier_end s a :
  identifier s = true ->
  GoFragment.isLetter a || isDigit a = false ->
  (128 <=? nat_of_ascii a)%nat = false ->
  GoFragment.step (GoFragment.InWord s) a =
  GoFragment.emit (GoFragment.IDENT s) (GoFragment.start true a).
Proof.
  intros H Ha Hascii. destruct (identifier_inv _ H) as (Hk & _).
  cbn [GoFragment.step]. rewrite Ha, Hascii, (word_identifier _ Hk).
  reflexivity.
Qed.

Lemma plain_byte_not_quote a :
  GoFragment.plain_byte a = true -> Ascii.eqb a dquote = false.
Proof.
  unfold GoFragment.plain_byte. intros H.
  apply andb_prop in H as [H _]. apply andb_prop in H as [_ H].
  apply negb_true_iff in H. exact H.
Qed.

Lemma scan_steps_plain : forall s acc,
  plain_text s = true ->
  scan_steps (GoFragment.InString acc) s =
  Some ([], GoFragment.InString (acc +:+ s)).
Proof.
  induction s as [|a s IH]; intros acc H.
  - rewrite append_nil_r. reflexivity.
  - cbn [plain_text] in H. apply andb_prop in H as [Ha Hs].
    cbn [scan_steps GoFragment.step].
    rewrite (plain_byte_not_quote _ Ha), Ha, (IH _ Hs).
    rewrite append_assoc. reflexivity.
Qed.

(** An identifier, the byte that ends it, and what follows. *)
Lemma scan_steps_after_identifier s a rest ts m ts' m' :
  identifier s = true ->
  GoFragment.isLetter a || isDigit a = false ->
  (128 <=? nat_of_ascii a)%nat = false ->
  GoFragment.start true a = Some (ts, m) ->
  scan_steps m rest = Some (ts', m') ->
  scan_steps (GoFragment.InWord s) (String a rest) =
  Some ((GoFragment.IDENT s :: ts) ++ ts', m')%list.
Proof.
  intros Hs Ha Hascii Hstart Hrest. cbn [scan_steps].
  rewrite (step_identifier_end _ _ Hs Ha Hascii), Hstart.
  cbn [GoFragment.emit]. rewrite Hrest. reflexivity.
Qed.

(** The rendered text, piece by piece. *)
Lemma rendered_pieces pkg version variable :
  rendered pkg version variable =
  (comment_line +:+ "package ") +:+ pkg +:+
  String newline (nl +:+ "const (" +:+ nl +:+ String tab EmptyString) +:+
  variable +:+ String " "%char ("= " +:+ String dquote EmptyString) +:+
  version +:+ String dquote (nl +:+ ")" +:+ nl).
Proof.
  unfold rendered, generateContent, writeHeader, writeString, Sprintln,
    comment_line. cbn [fst b err].
  rewrite !append_assoc, !append_cons, !append_assoc. reflexivity.
Qed.

(** The tokens of the rendered text. *)
Lemma scan_rendered pkg version variable :
  identifier pkg = true -> identifier variable = true ->
  plain_text version = true ->
  GoFragment.scan (GoFragment.Between false) (rendered pkg version variable) =
  Some [GoFragment.PACKAGE; GoFragment.IDENT pkg; GoFragment.SEMICOLON;
        GoFragment.CONST; GoFragment.LPAREN; GoFragment.IDENT variable;
        GoFragment.ASSIGN;
        GoFragment.STRING (String dquote (version +:+ String dquote EmptyString));
        GoFragment.SEMICOLON; GoFragment.RPAREN; GoFragment.SEMICOLON].
Proof.
  intros Hpkg Hvar Hver. rewrite rendered_pieces.
  rewrite scan_app.
  replace (scan_steps (GoFragment.Between false) (comment_line +:+ "package "))
    with (Some ([GoFragment.PACKAGE], GoFragment.Between false))
    by (vm_compute; reflexivity).
  rewrite scan_app, (scan_steps_identifier _ _ Hpkg).
  rewrite scan_app.
  rewrite (scan_steps_after_identifier pkg newline _
             [GoFragment.SEMICOLON] (GoFragment.Between false)
             [GoFragment.CONST; GoFragment.LPAREN] (GoFragment.Between false)
             Hpkg)
    by (vm_compute; reflexivity).
  rewrite scan_app, (scan_steps_identifier _ _ Hvar).
  rewrite scan_app.
  rewrite (scan_steps_after_identifier variable " "%char _
             [] (GoFragment.Between true)
             [GoFragment.ASSIGN]
             (GoFragment.InString (String dquote EmptyString))
             Hvar)
    by (vm_compute; reflexivity).
  rewrite scan_app, (scan_steps_plain _ _ Hver).
  cbn [GoFragment.scan GoFragment.step]. rewrite Ascii.eqb_refl.
  rewrite append_cons, append_assoc.
  vm_compute. reflexivity.
Qed.

(** The fragment reads the rendered text as the declaration it spells. *)
Lemma parse_rendered pkg version variable :
  identifier pkg = true -> identifier variable = true ->
  plain_text version = true ->
  GoFragment.parse (rendered pkg version variable) =
  Some (rendered_file pkg version variable).
Proof.
  intros Hpkg Hvar Hver. unfold GoFragment.parse.
  rewrite (scan_rendered _ _ _ Hpkg Hvar Hver). reflexivity.
Qed.

Lemma TrimRight_closing_quote : forall s,
  plain_text s = true ->
  TrimRight (s +:+ String dquote EmptyString) (String dquote EmptyString) = s.
Proof.
  induction s as [|a s IH]; intros H; [reflexivity|].
  cbn [plain_text] in H. apply andb_prop in H as [Ha Hs].
  rewrite append_cons. cbn [TrimRight]. rewrite (IH Hs).
  destruct s; [|reflexivity].
  cbn [in_cutset]. rewrite (plain_byte_not_quote _ Ha). reflexivity.
Qed.

(** Trimming the quotes off a literal gives back the text between them. *)
Lemma Trim_literal s :
  plain_text s = true ->
  Trim (String dquote (s +:+ String dquote EmptyString))
       (String dquote EmptyString) = s.
Proof.
  intros H. unfold Trim. cbn [TrimLeft in_cutset].
  rewrite Ascii.eqb_refl. cbn [orb].
  destruct s as [|a s]; [reflexivity|].
  rewrite append_cons. cbn [TrimLeft in_cutset].
  pose proof H as H'. cbn [plain_text] in H'. apply andb_prop in H' as [Ha _].
  rewrite (plain_byte_not_quote _ Ha). cbn [orb].
  rewrite <- append_cons. apply TrimRight_closing_quote. exact H.
Qed.

(** What [Trim] returns does not start with a byte of the cutset. *)
Lemma TrimLeft_head s cutset a r :
  TrimLeft s cutset = String a r -> in_cutset cutset a = false.
Proof.
  induction s as [|x s IH]; [discriminate|]. cbn [TrimLeft].
  destruct (in_cutset cutset x) eqn:E; [exact IH|].
  intros [= <- _]. exact E.
Qed.

Lemma TrimRight_head s cutset a r :
  TrimRight s cutset = String a r -> exists r', s = String a r'.
Proof.
  destruct s as [|x s]; [discriminate|]. cbn [TrimRight].
  destruct (TrimRight s cutset).
  - destruct (in_cutset cutset x); [discriminate|]. intros [= <- _]. eauto.
  - intros [= <- _]. eauto.
Qed.

Lemma Trim_head s cutset a r :
  Trim s cutset = String a r -> in_cutset cutset a = false.
Proof.
  unfold Trim. intros H. destruct (TrimRight_head _ _ _ _ H) as [r' Hr'].
  exact (TrimLeft_head _ _ _ _ Hr').
Qed.

Lemma plain_text_app s1 s2 :
  plain_text s1 = true -> plain_text s2 = true ->
  plain_text (s1 +:+ s2) = true.
Proof.
  intros H1 H2. induction s1 as [|a s1 IH]; [exact H2|].
  cbn [plain_text] in H1. apply andb_prop in H1 as [Ha H1].
  rewrite append_cons. cbn [plain_text]. rewrite Ha, (IH H1). reflexivity.
Qed.

(** A property checked on the numbers from 0 to 10 holds for each. *)
Lemma upto_ten (P : Z -> bool) :
  forallb P (map Z.of_nat (seq 0 11)) = true ->
  forall n, (0 <= n <= 10)%Z -> P n = true.
Proof.
  intros H n Hn. rewrite forallb_forall in H. apply H.
  rewrite <- (Z2Nat.id n) by lia. apply in_map, in_seq. lia.
Qed.

Lemma fmt_d_plain n : (0 <= n <= 10)%Z -> plain_text (fmt_d n) = true.
Proof. apply (upto_ten (fun z => plain_text (fmt_d z))). reflexivity. Qed.

Lemma render_version_plain major minor patch :
  (0 <= major <= 10)%Z -> (0 <= minor <= 10)%Z -> (0 <= patch <= 10)%Z ->
  plain_text (render_version (major, minor, patch)) = true.
Proof.
  intros H1 H2 H3. unfold render_version.
  repeat (apply plain_text_app); auto using fmt_d_plain.
Qed.

(** The digits and dots that the incrementer prints are plain text. *)
Lemma getNextVersion_plain version mode next :
  getNextVersion version mode = (next, None) -> plain_text next = true.
Proof.
  rewrite getNextVersion_eq.
  destruct (version_fields version) as [[[l1 d] l3]|] eqn:E; [|discriminate].
  destruct (version_fields_digits _ _ _ _ E) as (H1 & H2 & H3).
  apply digit_value_range in H1, H2, H3.
  intros [= <-]. clear E. unfold bump.
  destruct (String.eqb mode "PATCH"); [|
  destruct (String.eqb mode "MINOR"); [|
  destruct (String.eqb mode "MAJOR")]];
  rewrite ?int_add_small by assumption;
  apply render_version_plain; lia.
Qed.

Lemma digit_plain a : isDigit a = true -> GoFragment.plain_byte a = true.
Proof.
  destruct a as [[] [] [] [] [] [] [] []]; intros H;
    solve [discriminate H | reflexivity].
Qed.

Lemma all_digits_plain s : all_digits s = true -> plain_text s = true.
Proof.
  induction s as [|a s IH]; [reflexivity|]. cbn [all_digits plain_text].
  intros H. apply andb_prop in H as [Ha Hs].
  rewrite (digit_plain _ Ha), (IH Hs). reflexivity.
Qed.

Lemma numeral_plain s : numeral s = true -> plain_text s = true.
Proof. destruct s; [discriminate|]. apply all_digits_plain. Qed.

(** Three numerals and two dots are plain text. *)
Lemma version_triple_plain s :
  is_version_triple s = true -> plain_text s = true.
Proof.
  intros H. apply is_version_triple_iff in H
    as (m & n & p & Hm & Hn & Hp & ->).
  repeat (apply plain_text_app); auto using numeral_plain.
Qed.

Section RoundTrip.

Context {World : Type} {os : OS World} {parser : GoParser} {flags : Flags}.

(** The rendered file read back by the locator. *)
Lemma locate_rendered (w : World) path lazyInit pkg version :
  identifier pkg = true -> identifier variable = true ->
  plain_text version = true ->
  ReadFile w (filepath.Join [path; "version.go"]) =
    inl (rendered pkg version variable) ->
  getCurrentVersion w path lazyInit = (version, None, w).
Proof.
  intros Hpkg Hvar Hver Hfile. unfold getCurrentVersion, ParseFile.
  rewrite Hfile.
  rewrite (ParseSource_fragment _ _ (parse_rendered _ _ _ Hpkg Hvar Hver)).
  cbn [rendered_file ast.Decls findInDecls first_return token.eqb findInSpecs
       findInNames].
  rewrite String.eqb_refl.
  cbn [findInValues first_return]. rewrite (Trim_literal _ Hver).
  reflexivity.
Qed.

(** C4: rendering and locating again.  For a package name and a constant
    name that are identifiers, the constant being the one of the flag, and
    every version M.N.P of three decimal numerals of any length, when the
    version file holds the rendered declaration unit, the locator returns
    exactly the version that was rendered, with a nil error. *)
Theorem render_locate_roundtrip (w : World) (path : string) (lazyInit : bool)
    (pkg version : string) :
  identifier pkg = true ->
  identifier variable = true ->
  MatchString specRegEx version = true ->
  ReadFile w (filepath.Join [path; "version.go"]) =
    inl (rendered pkg version variable) ->
  getCurrentVersion w path lazyInit = (version, None, w).
Proof.
  intros Hpkg Hvar Hver Hfile.
  apply (locate_rendered w path lazyInit pkg version Hpkg Hvar); [|exact Hfile].
  rewrite MatchString_specRegEx in Hver. exact (version_triple_plain _ Hver).
Qed.

End RoundTrip.

(** ** The theorems on concrete worlds *)

(** Scenario D, the locator: no version file. *)
Lemma getCurrentVersion_no_version_file_witness :
  (exists w', getCurrentVersion empty_world "." true = ("1.0.0", None, w')) /\
  getCurrentVersion empty_world "." false =
    (EmptyString, Some (no_such_file "version.go"), empty_world).
Proof.
  apply (getCurrentVersion_no_version_file empty_world "."
           (no_such_file "version.go")).
  vm_compute. reflexivity.
Defined.

(** A version file without the constant VERSION, initialization requested. *)
Lemma getCurrentVersion_no_constant_witness :
  exists err,
    getCurrentVersion other_constant "." true =
      (EmptyString, Some err, other_constant) /\
    Contains (Error err) "VERSION" /\
    Contains (Error err) "version.go".
Proof.
  assert (Hparse : ParseFile other_constant (filepath.Join ["."; "version.go"])
                   = inl (rendered_file "main" "1.0.0" "OTHER"))
    by (vm_compute; reflexivity).
  assert (Hdecl : declares_constant
                    (ast.Decls (rendered_file "main" "1.0.0" "OTHER")) = false)
    by (vm_compute; reflexivity).
  exact (getCurrentVersion_no_constant other_constant "." true
           (rendered_file "main" "1.0.0" "OTHER") Hparse Hdecl).
Defined.

(** The version 1.10.0, rendered and located again. *)
Lemma render_locate_roundtrip_witness :
  getCurrentVersion minor_ten "." false = ("1.10.0", None, minor_ten).
Proof.
  apply (render_locate_roundtrip minor_ten "." false "main" "1.10.0");
    vm_compute; reflexivity.
Defined.

(** The package name of a directory with one source file. *)
Lemma parsePackage_outcome_witness :
  parsePackage fresh_project "." = Return "main".
Proof.
  destruct (parsePackage_outcome fresh_project ".") as [_ H].
  destruct (H ["README.md"; "main.go"]) as (_ & Hfirst & _).
  - vm_compute. reflexivity.
  - intros name [<-|[<-|[]]]; vm_compute; reflexivity.
  - apply (Hfirst (ast.mkFile "main" []) []). vm_compute. reflexivity.
Defined.

(** C7, as worded: in a directory whose listing is a.go, b.go, the first
    source file that parses is a.go, of package p, and the process exits
    all the same, because b.go does not parse. *)
Lemma parsePackage_later_file_unparsable :
  ReadDir broken_sibling "." = inl ["a.go"; "b.go"] /\
  first_parseable broken_sibling "." ["a.go"; "b.go"] =
    Some (ast.mkFile "p" []) /\
  parsePackage broken_sibling "." <> Return "p" /\
  exists msg, parsePackage broken_sibling "." = Exit msg.
Proof.
  split; [vm_compute; reflexivity|].
  split; [vm_compute; reflexivity|].
  split.
  - intros H. vm_compute in H. discriminate H.
  - eexists. vm_compute. reflexivity.
Qed.

(** A run on the path [src]: the version 1.2.9 is read from
    [src/version.go], not from the 3.0.0 of [version.go], and its increment
    1.2.10 is written to [./version.go]. *)
Lemma run_output_path_witness :
  let w2 := fst (mem_WriteFile src_release "./version.go"
                   (rendered "main" "1.2.10" "VERSION")) in
  run "VERSION" ["src"] "PATCH" false src_release = (w2, Return None) /\
  ReadFile w2 "./version.go" = inl (rendered "main" "1.2.10" "VERSION").
Proof.
  intros w2.
  assert (Hparse : ParseFile src_release (filepath.Join ["src"; "version.go"])
                   = inl (rendered_file "main" "1.2.9" "VERSION"))
    by (vm_compute; reflexivity).
  assert (Hfound : findInDecls
                     (ast.Decls (rendered_file "main" "1.2.9" "VERSION")) =
                   Some "1.2.9") by (vm_compute; reflexivity).
  assert (Hnext : getNextVersion "1.2.9" "PATCH" = ("1.2.10", None))
    by (vm_compute; reflexivity).
  assert (Hpkg : parsePackage src_release "src" = Return "main")
    by (vm_compute; reflexivity).
  assert (Hwrite : WriteFile (announce src_release "1.2.9" "1.2.10")
                     (filepath.Dir "src" +:+ "/version.go")
                     (rendered "main" "1.2.10" "VERSION") = (w2, None))
    by (vm_compute; reflexivity).
  exact (run_output_path "VERSION" "PATCH" false src_release w2 "src"
           (rendered_file "main" "1.2.9" "VERSION") "1.2.9" "1.2.10" "main"
           Hparse Hfound Hnext Hpkg Hwrite).
Defined.

(** * More on the code *)

(** ** The incrementer on every input *)

(** What does not start with a digit ends a run of digits. *)
Lemma skip_digits_run : forall ds l rest,
  all_digits ds = true -> isDigit l = true ->
  skip_digits rest = rest ->
  skip_digits (ds +:+ String l rest) = rest.
Proof.
  induction ds as [|a ds IH]; intros l rest Hds Hl Hrest.
  - change (EmptyString +:+ String l rest) with (String l rest).
    cbn [skip_digits]. rewrite Hl. exact Hrest.
  - cbn [all_digits] in Hds. apply andb_prop in Hds as [Ha Hds].
    rewrite append_cons. cbn [skip_digits]. rewrite Ha. auto.
Qed.

Lemma last_digit_stop a rest : skip_digits rest = rest -> last_digit a rest = a.
Proof.
  destruct rest as [|x rest]; [reflexivity|]. cbn [skip_digits last_digit].
  destruct (isDigit x); [|reflexivity].
  intros H. pose proof (skip_digits_length rest) as Hlen.
  rewrite H in Hlen. cbn [String.length] in Hlen. lia.
Qed.

Lemma last_digit_run : forall ds a l rest,
  all_digits ds = true -> isDigit l = true ->
  skip_digits rest = rest ->
  last_digit a (ds +:+ String l rest) = l.
Proof.
  induction ds as [|b ds IH]; intros a l rest Hds Hl Hrest.
  - change (EmptyString +:+ String l rest) with (String l rest).
    cbn [last_digit]. rewrite Hl. apply last_digit_stop. exact Hrest.
  - cbn [all_digits] in Hds. apply andb_prop in Hds as [Hb Hds].
    rewrite append_cons. cbn [last_digit]. rewrite Hb. auto.
Qed.

Lemma version_fields_tail a s1 d p l3 :
  isDigit a = true -> isDigit d = true ->
  all_digits p = true -> isDigit l3 = true ->
  skip_digits s1 =
    String dot (String d (String dot (p +:+ String l3 EmptyString))) ->
  version_fields (String a s1) = Some (last_digit a s1, d, l3).
Proof.
  intros Ha Hd Hp H3 Hs1. cbn [version_fields]. rewrite Ha, Hs1.
  destruct p as [|b p'].
  - change (EmptyString +:+ String l3 EmptyString)
      with (String l3 EmptyString).
    rewrite !Ascii.eqb_refl, Hd, H3. reflexivity.
  - rewrite append_cons. cbn [all_digits] in Hp.
    apply andb_prop in Hp as [Hb Hp'].
    rewrite !Ascii.eqb_refl, Hd, Hb. cbn [andb].
    rewrite (skip_digits_run _ _ _ Hp' H3 eq_refl).
    rewrite (last_digit_run _ _ _ _ Hp' H3 eq_refl). reflexivity.
Qed.

(** The digits captured from a string of the accepted shape: digits, a
    dot, one digit, a dot, digits. *)
Lemma version_fields_shape m l1 d p l3 :
  all_digits m = true -> isDigit l1 = true -> isDigit d = true ->
  all_digits p = true -> isDigit l3 = true ->
  version_fields
    (m +:+ String l1 (String dot (String d (String dot
       (p +:+ String l3 EmptyString))))) = Some (l1, d, l3).
Proof.
  intros Hm H1 Hd Hp H3.
  destruct m as [|a m'].
  - change (EmptyString +:+ ?s) with s.
    rewrite (version_fields_tail l1 _ d p l3) by auto.
    rewrite last_digit_stop by reflexivity. reflexivity.
  - rewrite append_cons. cbn [all_digits] in Hm.
    apply andb_prop in Hm as [Ha Hm'].
    rewrite (version_fields_tail a _ d p l3); auto.
    + rewrite last_digit_run by auto. reflexivity.
    + apply skip_digits_run; auto.
Qed.

(** X1: on an input made of digits, a dot, one digit, a dot and digits,
    only the last digit of the first and of the last number takes part: the
    digit selected by the mode is printed plus one (9 becomes 10), the two
    others are printed as they are, and the digits before them are gone. *)
Theorem getNextVersion_last_digits (m p : string) (l1 d l3 : ascii) :
  all_digits m = true -> isDigit l1 = true -> isDigit d = true ->
  all_digits p = true -> isDigit l3 = true ->
  let version :=
    m +:+ String l1 (String dot (String d (String dot
      (p +:+ String l3 EmptyString)))) in
  getNextVersion version "PATCH" =
    (String l1 (String dot (String d (String dot
       (fmt_d (digit_value l3 + 1))))), None) /\
  getNextVersion version "MINOR" =
    (String l1 (String dot
       (fmt_d (digit_value d + 1) +:+ String dot (String l3 EmptyString))),
     None) /\
  getNextVersion version "MAJOR" =
    (fmt_d (digit_value l1 + 1) +:+
       String dot (String d (String dot (String l3 EmptyString))), None).
Proof.
  intros Hm H1 Hd Hp H3 version.
  pose proof (version_fields_shape m l1 d p l3 Hm H1 Hd Hp H3) as E.
  fold version in E.
  rewrite !getNextVersion_eq, E. unfold bump, render_version.
  cbn [String.eqb Ascii.eqb Bool.eqb].
  rewrite !int_add_small by (apply digit_value_range; assumption).
  rewrite (fmt_d_digit _ H1), (fmt_d_digit _ Hd), (fmt_d_digit _ H3).
  repeat split.
Qed.

Lemma getNextVersion_last_digits_witness :
  getNextVersion "12.3.49" "PATCH" = ("2.3.10", None) /\
  getNextVersion "12.3.49" "MINOR" = ("2.4.9", None) /\
  getNextVersion "12.3.49" "MAJOR" = ("3.3.9", None).
Proof.
  apply (getNextVersion_last_digits "1" "4" "2" "3" "9"); reflexivity.
Defined.

Lemma numeral_snoc : forall m,
  numeral m = true ->
  exists m0 l, m = m0 +:+ String l EmptyString /\
               all_digits m0 = true /\ isDigit l = true.
Proof.
  induction m as [|a m IH]; [discriminate|]. cbn [numeral all_digits].
  intros H. apply andb_prop in H as [Ha Hm]. destruct m as [|b m'].
  - exists EmptyString, a. auto.
  - destruct (IH Hm) as (m0 & l & -> & Hm0 & Hl).
    exists (String a m0), l. cbn [all_digits]. rewrite Ha, Hm0. auto.
Qed.

(** Digits, a dot, one digit, a dot, digits: accepted. *)
Lemma versionRegEx_accepts_shape m d p :
  numeral m = true -> isDigit d = true -> numeral p = true ->
  MatchString versionRegEx (m +:+ String dot (String d (String dot p))) = true.
Proof.
  intros Hm Hd Hp.
  destruct (numeral_snoc _ Hm) as (m0 & l1 & -> & Hm0 & H1).
  destruct (numeral_snoc _ Hp) as (p0 & l3 & -> & Hp0 & H3).
  rewrite append_assoc, append_cons.
  change (EmptyString +:+ ?s) with s.
  rewrite MatchString_versionRegEx, version_fields_shape by assumption.
  reflexivity.
Qed.

(** What is accepted has that shape. *)
Lemma version_fields_inv s f :
  version_fields s = Some f ->
  exists m d p,
    numeral m = true /\ isDigit d = true /\ numeral p = true /\
    s = m +:+ String dot (String d (String dot p)).
Proof.
  unfold version_fields. destruct s as [|a s1]; [discriminate|].
  destruct (isDigit a) eqn:Ha; [|discriminate].
  destruct (skip_digits_split s1) as (ds1 & Hds1 & Hs1).
  destruct (skip_digits s1) as [|x1 [|d [|x2 [|b s3]]]]; try discriminate.
  destruct (Ascii.eqb_spec x1 dot) as [->|]; [|discriminate].
  destruct (isDigit d) eqn:Hd; [|discriminate].
  destruct (Ascii.eqb_spec x2 dot) as [->|]; [|discriminate].
  destruct (isDigit b) eqn:Hb; [|discriminate]. cbn [andb].
  destruct (skip_digits_split s3) as (ds3 & Hds3 & Hs3).
  destruct (skip_digits s3); [|discriminate]. intros _.
  rewrite append_nil_r in Hs3. subst s3 s1.
  exists (String a ds1), d, (String b ds3). cbn [numeral all_digits].
  rewrite Ha, Hb, Hds1, Hds3. auto.
Qed.

(** X2: the pattern of the incrementer accepts exactly the strings made of
    a decimal numeral, a dot, one single digit, a dot and a decimal numeral;
    a minor number of two or more digits is turned down. *)
Theorem versionRegEx_accepts (s : string) :
  MatchString versionRegEx s = true <->
  exists m d p,
    numeral m = true /\ isDigit d = true /\ numeral p = true /\
    s = m +:+ String dot (String d (String dot p)).
Proof.
  split.
  - rewrite MatchString_versionRegEx.
    destruct (version_fields s) as [f|] eqn:E; [|discriminate].
    intros _. exact (version_fields_inv _ _ E).
  - intros (m & d & p & Hm & Hd & Hp & ->).
    apply versionRegEx_accepts_shape; assumption.
Qed.

Lemma render_version_not_empty v : render_version v <> EmptyString.
Proof.
  destruct v as [[major minor] patch]. unfold render_version.
  destruct (fmt_d major); discriminate.
Qed.

(** X3: the incrementer has two outcomes and no third.  When the pattern
    matches it returns a version that is not empty and a nil error; when it
    does not, the empty string and the error with the plain format message.
    The three error returns after [Atoi] are never taken. *)
Theorem getNextVersion_outcome (version mode : string) :
  (MatchString versionRegEx version = true /\
   exists out, out <> EmptyString /\
               getNextVersion version mode = (out, None)) \/
  (MatchString versionRegEx version = false /\
   getNextVersion version mode =
     (EmptyString, Some (errorString (format_message version)))).
Proof.
  rewrite MatchString_versionRegEx, getNextVersion_eq.
  destruct (version_fields version) as [[[l1 d] l3]|].
  - left. split; [reflexivity|]. eexists. split; [|reflexivity].
    apply render_version_not_empty.
  - right. auto.
Qed.

Lemma fmt_d_numeral n : (0 <= n <= 10)%Z -> numeral (fmt_d n) = true.
Proof. apply (upto_ten (fun z => numeral (fmt_d z))). reflexivity. Qed.

Lemma numeral_digit a : isDigit a = true -> numeral (String a EmptyString) = true.
Proof. intros H. cbn [numeral all_digits]. rewrite H. reflexivity. Qed.

(** One more than a digit below nine is a digit again. *)
Lemma fmt_d_succ_digit d :
  isDigit d = true -> Ascii.eqb d "9"%char = false ->
  exists c, isDigit c = true /\
            fmt_d (digit_value d + 1) = String c EmptyString.
Proof.
  destruct d as [[] [] [] [] [] [] [] []]; intros H H9;
    try discriminate H; try discriminate H9;
    (eexists; split; [|vm_compute; reflexivity]; reflexivity).
Qed.

(** X4: whether the tool can read its own output.  After MAJOR, PATCH or an
    ignored mode the version returned is accepted by the incrementer again;
    after MINOR it is accepted unless the minor digit was 9, in which case
    the version returned has the minor number 10 and is turned down. *)
Theorem getNextVersion_output_accepted (m p : string) (d : ascii)
    (mode out : string) :
  numeral m = true -> isDigit d = true -> numeral p = true ->
  getNextVersion (m +:+ String dot (String d (String dot p))) mode =
    (out, None) ->
  MatchString versionRegEx out =
  negb (String.eqb mode "MINOR" && Ascii.eqb d "9"%char).
Proof.
  intros Hm Hd Hp.
  destruct (numeral_snoc _ Hm) as (m0 & l1 & -> & Hm0 & H1).
  destruct (numeral_snoc _ Hp) as (p0 & l3 & -> & Hp0 & H3).
  rewrite append_assoc, append_cons.
  change (EmptyString +:+ ?s) with s.
  rewrite getNextVersion_eq, version_fields_shape by assumption.
  intros [= <-]. unfold bump, render_version.
  pose proof (digit_value_range _ H1) as R1.
  pose proof (digit_value_range _ Hd) as Rd.
  pose proof (digit_value_range _ H3) as R3.
  destruct (String.eqb mode "PATCH") eqn:Epatch.
  { apply String.eqb_eq in Epatch. subst mode. cbn [String.eqb Ascii.eqb Bool.eqb andb negb].
    rewrite int_add_small by assumption.
    rewrite (fmt_d_digit _ H1), (fmt_d_digit _ Hd).
    apply (versionRegEx_accepts_shape (String l1 EmptyString) d);
      auto using numeral_digit. apply fmt_d_numeral. lia. }
  destruct (String.eqb mode "MINOR") eqn:Eminor.
  { cbn [andb]. rewrite int_add_small by assumption.
    rewrite (fmt_d_digit _ H1), (fmt_d_digit _ H3).
    destruct (Ascii.eqb d "9"%char) eqn:E9.
    - apply Ascii.eqb_eq in E9. subst d. cbn [negb].
      rewrite MatchString_versionRegEx.
      change (match version_fields
                      (String l1 (String dot (String "1" (String "0"
                         (String dot (String l3 EmptyString))))))
              with Some _ => true | None => false end = false).
      unfold version_fields. rewrite H1. reflexivity.
    - destruct (fmt_d_succ_digit _ Hd E9) as (c & Hc & ->). cbn [negb].
      apply (versionRegEx_accepts_shape (String l1 EmptyString) c);
        auto using numeral_digit. }
  cbn [andb negb].
  destruct (String.eqb mode "MAJOR").
  - rewrite int_add_small by assumption.
    rewrite (fmt_d_digit _ Hd), (fmt_d_digit _ H3).
    apply versionRegEx_accepts_shape; auto using numeral_digit.
    apply fmt_d_numeral. lia.
  - rewrite (fmt_d_digit _ H1), (fmt_d_digit _ Hd), (fmt_d_digit _ H3).
    apply (versionRegEx_accepts_shape (String l1 EmptyString) d);
      auto using numeral_digit.
Qed.

Lemma getNextVersion_output_accepted_witness :
  MatchString versionRegEx "1.10.0" = false.
Proof.
  apply (getNextVersion_output_accepted "1" "0" "9" "MINOR" "1.10.0");
    reflexivity.
Defined.

(** ** The locator on every file *)

Lemma first_return_app {A B : Type} (body : A -> option B) l1 l2 :
  first_return body (l1 ++ l2)%list =
  match first_return body l1 with
  | Some r => Some r
  | None => first_return body l2
  end.
Proof.
  induction l1 as [|x l1 IH]; [reflexivity|]. cbn [app first_return].
  destruct (body x); [reflexivity|exact IH].
Qed.

Lemma TrimRight_last : forall s cutset r a,
  TrimRight s cutset = r +:+ String a EmptyString ->
  in_cutset cutset a = false.
Proof.
  induction s as [|x s IH]; intros cutset r a.
  - destruct r as [|z r]; [|rewrite append_cons]; discriminate.
  - cbn [TrimRight]. destruct (TrimRight s cutset) as [|y t] eqn:E.
    + destruct r as [|z r]; [|rewrite append_cons].
      * change (EmptyString +:+ ?u) with u.
        destruct (in_cutset cutset x) eqn:Ex; [discriminate|].
        intros [= <-]. exact Ex.
      * destruct (in_cutset cutset x); [discriminate|].
        intros [= _ H]. destruct r as [|z' r]; [|rewrite append_cons in H];
          discriminate H.
    + destruct r as [|z r]; [|rewrite append_cons].
      * intros H. change (EmptyString +:+ ?u) with u in H. discriminate H.
      * intros [= _ H]. rewrite <- E in H. exact (IH _ _ _ H).
Qed.

Section LocatorMore.

Context {World : Type} {os : OS World} {parser : GoParser} {flags : Flags}.

Lemma findInValues_first_literal skipped kind value rest :
  forallb (fun e => negb (is_basic_lit e)) skipped = true ->
  findInValues (skipped ++ ast.BasicLit kind value :: rest)%list =
  Some (Trim value (String dquote EmptyString)).
Proof.
  induction skipped as [|e skipped IH]; [reflexivity|].
  cbn [forallb]. intros H. apply andb_prop in H as [He Hs].
  unfold findInValues in *. cbn [app first_return].
  destruct e; [discriminate He| |]; exact (IH Hs).
Qed.

Lemma findInNames_named names values :
  In variable names -> findInNames names values = findInValues values.
Proof.
  unfold findInNames. destruct (findInValues values) as [v|].
  - induction names as [|name names IH]; [contradiction|].
    intros [->|H]; cbn [first_return].
    + rewrite String.eqb_refl. reflexivity.
    + destruct (String.eqb name variable); [reflexivity|exact (IH H)].
  - intros _. apply first_return_none. intros name _.
    destruct (String.eqb name variable); reflexivity.
Qed.

(** X5: where the version comes from.  In the first constant declaration
    that yields anything, the first specification that yields anything, when
    it names the constant, gives its first value that is a basic literal,
    whatever the kind of the literal (a number as well as a string) and
    whatever stands after it, trimmed of quotes; values before it that are
    not literals are passed over. *)
Theorem getCurrentVersion_first_literal (w : World) (path : string)
    (lazyInit : bool) (f : ast.File) (pre post : list ast.Decl)
    (specs_pre specs_post : list ast.Spec) (names : list string)
    (skipped rest : list ast.Expr) (kind : token.Token) (value : string) :
  ParseFile w (filepath.Join [path; "version.go"]) = inl f ->
  ast.Decls f =
    (pre ++ ast.GenDecl token.CONST
              (specs_pre ++
               ast.ValueSpec names
                 (skipped ++ ast.BasicLit kind value :: rest) :: specs_post)
         :: post)%list ->
  findInDecls pre = None ->
  findInSpecs specs_pre = None ->
  In variable names ->
  forallb (fun e => negb (is_basic_lit e)) skipped = true ->
  getCurrentVersion w path lazyInit =
    (Trim value (String dquote EmptyString), None, w).
Proof.
  intros Hf Hdecls Hpre Hspecs Hname Hskipped.
  unfold getCurrentVersion. rewrite Hf, Hdecls.
  unfold findInDecls in *. rewrite first_return_app, Hpre.
  cbn [first_return token.eqb].
  unfold findInSpecs in *. rewrite first_return_app, Hspecs.
  cbn [first_return].
  rewrite (findInNames_named _ _ Hname).
  rewrite (findInValues_first_literal _ _ _ _ Hskipped). reflexivity.
Qed.

(** X6: whatever the file holds and whatever the parser makes of it, the
    version that the locator returns neither starts nor ends with a double
    quote. *)
Theorem getCurrentVersion_no_outer_quote (w w' : World) (path : string)
    (lazyInit : bool) (version : string) (e : option error) :
  getCurrentVersion w path lazyInit = (version, e, w') ->
  (forall r, version <> String dquote r) /\
  (forall r, version <> r +:+ String dquote EmptyString).
Proof.
  assert (Htrim : forall value,
    (forall r, Trim value (String dquote EmptyString) <> String dquote r) /\
    (forall r, Trim value (String dquote EmptyString)
               <> r +:+ String dquote EmptyString)).
  { intros value. split; intros r H.
    - apply Trim_head in H. cbn [in_cutset] in H.
      rewrite Ascii.eqb_refl in H. discriminate H.
    - unfold Trim in H. apply TrimRight_last in H. cbn [in_cutset] in H.
      rewrite Ascii.eqb_refl in H. discriminate H. }
  assert (Hconst : forall s : string,
    s = "1.0.0" \/ s = EmptyString ->
    (forall r, s <> String dquote r) /\
    (forall r, s <> r +:+ String dquote EmptyString)).
  { intros s [->| ->]; split; intros r H; try discriminate H.
    - destruct r as [|a1 [|a2 [|a3 [|a4 [|a5 [|a6 r]]]]]]; discriminate H.
    - destruct r; discriminate H. }
  unfold getCurrentVersion.
  destruct (ParseFile w _) as [f|err].
  - destruct (findInDecls (ast.Decls f)) as [v|] eqn:E.
    + intros [= <- _ _]. revert E. unfold findInDecls.
      generalize (ast.Decls f). intros decls.
      induction decls as [|decl decls IHd]; [discriminate|].
      cbn [first_return].
      destruct decl as [|Tok Specs|]; try exact IHd.
      destruct (token.eqb Tok token.CONST); [|exact IHd].
      destruct (findInSpecs Specs) as [v'|] eqn:Es; [|exact IHd].
      intros [= <-]. clear IHd. revert Es. unfold findInSpecs.
      induction Specs as [|spec Specs IHs]; [discriminate|].
      cbn [first_return].
      destruct spec as [|Names Values|]; try exact IHs.
      destruct (findInNames Names Values) as [v''|] eqn:En; [|exact IHs].
      intros [= <-]. clear IHs. revert En. unfold findInNames.
      induction Names as [|name Names IHn]; [discriminate|].
      cbn [first_return].
      destruct (String.eqb name variable); [|exact IHn].
      destruct (findInValues Values) as [v3|] eqn:Ev; [|exact IHn].
      intros [= <-]. clear IHn. revert Ev. unfold findInValues.
      induction Values as [|val Values IHv]; [discriminate|].
      cbn [first_return].
      destruct val as [Kind Value| |]; try exact IHv.
      intros [= <-]. apply Htrim.
    + intros [= <- _ _]. apply Hconst. auto.
  - destruct lazyInit; intros [= <- _ _]; apply Hconst; auto.
Qed.

(** X7: the locator writes no file: every file and every directory listing
    reads the same after it as before it. *)
Theorem getCurrentVersion_reads_only (w w' : World) (path : string)
    (lazyInit : bool) (version : string) (e : option error) :
  getCurrentVersion w path lazyInit = (version, e, w') ->
  forall name,
    ReadFile w' name = ReadFile w name /\ ReadDir w' name = ReadDir w name.
Proof.
  intros H name.
  destruct (getCurrentVersion_world _ _ _ _ _ _ H) as [->|[s ->]].
  - auto.
  - rewrite Printf_ReadFile, Printf_ReadDir. auto.
Qed.

End LocatorMore.

(** ** The read-only mode *)

Section ReadOnlyFacts.

Context {World : Type} {os : OS World} {parser : GoParser} {flags : Flags}.

Lemma ParseFile_same_files (w1 w2 : World) :
  (forall name, ReadFile w1 name = ReadFile w2 name) ->
  forall name, ParseFile w1 name = ParseFile w2 name.
Proof. intros H name. unfold ParseFile. rewrite H. reflexivity. Qed.

(** Without initialization the locator does not even print. *)
Lemma getCurrentVersion_false_world (w w' : World) path version e :
  getCurrentVersion w path false = (version, e, w') -> w' = w.
Proof.
  unfold getCurrentVersion. destruct (ParseFile w _) as [f|err].
  - destruct (findInDecls (ast.Decls f)); intros [= _ _ <-]; reflexivity.
  - intros [= _ _ <-]. reflexivity.
Qed.

Lemma printCurrentVersion_files variable : forall paths (w w' : World) e,
  printCurrentVersion variable paths w = (w', e) ->
  forall name,
    ReadFile w' name = ReadFile w name /\ ReadDir w' name = ReadDir w name.
Proof.
  induction paths as [|path paths IH]; intros w w' e; cbn [printCurrentVersion].
  - intros [= <- _]. auto.
  - destruct (getCurrentVersion w path false) as [[version err] w1] eqn:E.
    apply getCurrentVersion_false_world in E. subst w1.
    destruct err as [err|].
    + intros [= <- _]. auto.
    + intros H name. destruct (IH _ _ _ H name) as [H1 H2].
      rewrite H1, H2, Printf_ReadFile, Printf_ReadDir. auto.
Qed.

Lemma printCurrentVersion_same_files variable : forall paths (w1 w2 : World),
  (forall name, ReadFile w1 name = ReadFile w2 name) ->
  snd (printCurrentVersion variable paths w1) =
  snd (printCurrentVersion variable paths w2).
Proof.
  induction paths as [|path paths IH]; intros w1 w2 Hsame;
    cbn [printCurrentVersion]; [reflexivity|].
  pose proof (getCurrentVersion_reads w1 w2 path false
                (ParseFile_same_files _ _ Hsame _)) as Hfst.
  destruct (getCurrentVersion w1 path false) as [[v1 e1] w1'] eqn:E1.
  destruct (getCurrentVersion w2 path false) as [[v2 e2] w2'] eqn:E2.
  apply getCurrentVersion_false_world in E1, E2. subst w1' w2'.
  cbn [fst] in Hfst. injection Hfst as -> ->.
  destruct e2; [reflexivity|]. apply IH. intros name.
  rewrite !Printf_ReadFile. apply Hsame.
Qed.

(** X8: the read-only mode writes no file, and asking again gives the same
    answer: after it every file and every directory listing reads as
    before, and a second call in the world it leaves returns the error, or
    nil, that the first one returned. *)
Theorem printCurrentVersion_repeatable (variable : string)
    (paths : list string) (w w' : World) (e : option error) :
  printCurrentVersion variable paths w = (w', e) ->
  (forall name,
     ReadFile w' name = ReadFile w name /\ ReadDir w' name = ReadDir w name) /\
  snd (printCurrentVersion variable paths w') = e.
Proof.
  intros H. pose proof (printCurrentVersion_files _ _ _ _ _ H) as Hfiles.
  split; [exact Hfiles|].
  rewrite (printCurrentVersion_same_files variable paths w' w).
  - rewrite H. reflexivity.
  - intros name. apply Hfiles.
Qed.

(** X9: the read-only mode never initializes and stops at the first path
    that fails: when the paths before it have a version and the locator,
    without initialization, returns an error for it, that error is
    returned, whatever paths follow. *)
Theorem printCurrentVersion_first_error (variable : string)
    (pre post : list string) (path : string) (w : World) (err : error) :
  (forall p, In p pre -> snd (fst (getCurrentVersion w p false)) = None) ->
  snd (fst (getCurrentVersion w path false)) = Some err ->
  snd (printCurrentVersion variable (pre ++ path :: post)%list w) = Some err.
Proof.
  revert w. induction pre as [|p pre IH]; intros w Hpre Hpath;
    cbn [app printCurrentVersion].
  - destruct (getCurrentVersion w path false) as [[version e] w1].
    cbn [fst snd] in Hpath. subst e. reflexivity.
  - pose proof (Hpre p (or_introl eq_refl)) as Hp.
    destruct (getCurrentVersion w p false) as [[version e] w1] eqn:E.
    apply getCurrentVersion_false_world in E. subst w1.
    cbn [fst snd] in Hp. subst e. apply IH.
    + intros q Hq.
      rewrite (getCurrentVersion_reads (Printf w version) w q false)
        by apply ParseFile_Printf.
      apply Hpre. right. exact Hq.
    + rewrite (getCurrentVersion_reads (Printf w version) w path false)
        by apply ParseFile_Printf.
      exact Hpath.
Qed.

End ReadOnlyFacts.

Section ReadOnlyOutput.

Context {parser : GoParser} {flags : Flags}.

(** X10: what the read-only mode prints, in the world in memory: when every
    path has a version, the versions are printed in the order of the paths,
    one print each and nothing else (no separator, no newline), and nil is
    returned. *)
Theorem printCurrentVersion_prints (variable : string)
    (paths versions : list string) (w : MemWorld) :
  Forall2 (fun p v => fst (getCurrentVersion w p false) = (v, None))
    paths versions ->
  printCurrentVersion variable paths w =
    (mkMemWorld (mem_files w) (mem_dirs w) (mem_stdout w ++ versions)%list,
     None).
Proof.
  intros H. revert versions w H.
  induction paths as [|p paths IH]; intros versions w H;
    inversion H as [|? v ? vs Hp Hrest]; subst; cbn [printCurrentVersion].
  - rewrite app_nil_r. destruct w; reflexivity.
  - destruct (getCurrentVersion w p false) as [[version e] w1] eqn:E.
    apply getCurrentVersion_false_world in E. subst w1.
    cbn [fst] in Hp. injection Hp as -> ->.
    rewrite (IH vs (Printf w v)).
    + cbn [Printf mem_os mem_Printf mem_files mem_dirs mem_stdout].
      rewrite <- app_assoc. reflexivity.
    + eapply Forall2_impl; [exact Hrest|]. intros q u Hq.
      rewrite (getCurrentVersion_reads (Printf w v) w q false)
        by apply ParseFile_Printf.
      exact Hq.
Qed.

End ReadOnlyOutput.

(** ** The orchestration on every path list *)

Lemma no_separator_prefix path :
  no_separator path = true ->
  filepath.up_to_last_separator path = EmptyString.
Proof.
  induction path as [|a path IH]; [reflexivity|]. cbn [no_separator].
  intros H. apply andb_prop in H as [Ha Hp].
  cbn [filepath.up_to_last_separator]. rewrite (IH Hp).
  apply negb_true_iff in Ha. rewrite Ha. reflexivity.
Qed.

Section RunMore.

Context {World : Type} {os : OS World} {parser : GoParser} {flags : Flags}.

Lemma getCurrentVersion_files (w w1 : World) path lazyInit version e name :
  getCurrentVersion w path lazyInit = (version, e, w1) ->
  ReadFile w1 name = ReadFile w name.
Proof.
  intros H. destruct (getCurrentVersion_world _ _ _ _ _ _ H) as [->|[s ->]];
    rewrite ?Printf_ReadFile; reflexivity.
Qed.

(** The steps behind a run on one path that returns nil. *)
Lemma run_single_inv (variable mode : string) (lazyInit : bool)
    (w w2 : World) (path : string) :
  run variable [path] mode lazyInit w = (w2, Return None) ->
  exists version w1 next pkg,
    getCurrentVersion w path lazyInit = (version, None, w1) /\
    getNextVersion version mode = (next, None) /\
    parsePackage w path = Return pkg /\
    WriteFile (announce w1 version next)
      (filepath.Dir path +:+ "/version.go") (rendered pkg next variable) =
      (w2, None).
Proof.
  cbn [run]. unfold runPath.
  destruct (getCurrentVersion w path lazyInit) as [[version e] w1] eqn:Hcur.
  destruct e as [e|]; [discriminate|].
  destruct (getNextVersion version mode) as [next e] eqn:Hnext.
  destruct e as [e|]; [destruct verbose; discriminate|].
  cbn [writeHeader writeString err b].
  pose proof (parsePackage_announce w w1 version next path
                (getCurrentVersion_world _ _ _ _ _ _ Hcur)) as Hpkg.
  unfold announce in *.
  destruct verbose.
  - rewrite Hpkg. destruct (parsePackage w path) as [pkg|msg];
      [|discriminate]. cbn [generateContent].
    match goal with |- context [WriteFile ?a ?b ?c] =>
      destruct (WriteFile a b c) as [w3 [e|]] eqn:Hwrite end;
      [discriminate|].
    intros [= <-]. exists version, w1, next, pkg. repeat split; auto.
  - rewrite Hpkg. destruct (parsePackage w path) as [pkg|msg];
      [|discriminate]. cbn [generateContent].
    match goal with |- context [WriteFile ?a ?b ?c] =>
      destruct (WriteFile a b c) as [w3 [e|]] eqn:Hwrite end;
      [discriminate|].
    intros [= <-]. exists version, w1, next, pkg. repeat split; auto.
Qed.

(** X11: the paths are processed in order and the first one that does not
    end with a nil error ends the run: a run over two lists of paths is the
    run over the first list and, only if that returns nil, the run over the
    second list in the world the first one left. *)
Theorem run_app (variable mode : string) (lazyInit : bool)
    (paths1 paths2 : list string) (w : World) :
  run variable (paths1 ++ paths2)%list mode lazyInit w =
  match run variable paths1 mode lazyInit w with
  | (w1, Return None) => run variable paths2 mode lazyInit w1
  | stop => stop
  end.
Proof.
  revert w. induction paths1 as [|path paths1 IH]; intros w; [reflexivity|].
  cbn [app run].
  destruct (runPath variable mode lazyInit w path) as [w1 [[e|]|msg]];
    [reflexivity|apply IH|reflexivity].
Qed.

(** X12: nothing is written for a path that fails before the write.  When
    the locator returns an error, when the incrementer turns the located
    version down, or when the package namer exits, the run ends with that
    error or exit and every file reads as before. *)
Theorem run_failure_writes_nothing (variable mode : string) (lazyInit : bool)
    (w : World) (path : string) :
  (forall version err w1,
     getCurrentVersion w path lazyInit = (version, Some err, w1) ->
     exists w2, run variable [path] mode lazyInit w = (w2, Return (Some err))
                /\ forall name, ReadFile w2 name = ReadFile w name) /\
  (forall version w1 next err,
     getCurrentVersion w path lazyInit = (version, None, w1) ->
     getNextVersion version mode = (next, Some err) ->
     exists w2, run variable [path] mode lazyInit w = (w2, Return (Some err))
                /\ forall name, ReadFile w2 name = ReadFile w name) /\
  (forall version w1 next msg,
     getCurrentVersion w path lazyInit = (version, None, w1) ->
     getNextVersion version mode = (next, None) ->
     parsePackage w path = Exit msg ->
     exists w2, run variable [path] mode lazyInit w = (w2, Exit msg)
                /\ forall name, ReadFile w2 name = ReadFile w name).
Proof.
  repeat split.
  - intros version err w1 Hcur. exists w1. cbn [run]. unfold runPath.
    rewrite Hcur. split; [reflexivity|].
    intros name. apply (getCurrentVersion_files _ _ _ _ _ _ _ Hcur).
  - intros version w1 next err Hcur Hnext. cbn [run]. unfold runPath.
    rewrite Hcur, Hnext. eexists. split; [reflexivity|]. intros name.
    destruct verbose; rewrite ?Printf_ReadFile;
      apply (getCurrentVersion_files _ _ _ _ _ _ _ Hcur).
  - intros version w1 next msg Hcur Hnext Hpkg. cbn [run]. unfold runPath.
    rewrite Hcur, Hnext. cbn [writeHeader writeString err b].
    pose proof (parsePackage_announce w w1 version next path
                  (getCurrentVersion_world _ _ _ _ _ _ Hcur)) as Hpkg'.
    rewrite Hpkg in Hpkg'. unfold announce in Hpkg'.
    destruct verbose; rewrite Hpkg'; (eexists; split; [reflexivity|]);
      intros name; rewrite ?Printf_ReadFile;
      apply (getCurrentVersion_files _ _ _ _ _ _ _ Hcur).
Qed.

Lemma getCurrentVersion_no_file_init (w : World) path err :
  ParseFile w (filepath.Join [path; "version.go"]) = inr err ->
  exists w', getCurrentVersion w path true = ("1.0.0", None, w').
Proof.
  intros H. unfold getCurrentVersion. rewrite H. eexists. reflexivity.
Qed.

Lemma getNextVersion_initial mode :
  getNextVersion "1.0.0" mode = (initial_release mode, None).
Proof.
  rewrite getNextVersion_eq. unfold initial_release.
  change (version_fields "1.0.0") with (Some ("1", "0", "0")%char).
  unfold bump.
  destruct (String.eqb mode "PATCH"); [reflexivity|].
  destruct (String.eqb mode "MINOR"); [reflexivity|].
  destruct (String.eqb mode "MAJOR"); reflexivity.
Qed.

(** X13: the first release.  When the version file cannot be read or
    parsed and initialization is requested, a run on the path that returns
    nil has written, next to the parent directory of the path, the file for
    the package name of the path and the version 1.0.1 in mode PATCH, 1.1.0
    in mode MINOR, 2.0.0 in mode MAJOR, and 1.0.0 in any other mode. *)
Theorem run_first_release (variable mode : string) (w w2 : World)
    (path : string) (err : error) :
  ParseFile w (filepath.Join [path; "version.go"]) = inr err ->
  run variable [path] mode true w = (w2, Return None) ->
  exists pkg,
    parsePackage w path = Return pkg /\
    ReadFile w2 (filepath.Dir path +:+ "/version.go") =
      inl (rendered pkg (initial_release mode) variable).
Proof.
  intros Hparse Hrun.
  destruct (run_single_inv _ _ _ _ _ _ Hrun)
    as (version & w1 & next & pkg & Hcur & Hnext & Hpkg & Hwrite).
  destruct (getCurrentVersion_no_file_init w path err Hparse) as [w1' Hinit].
  rewrite Hinit in Hcur. injection Hcur as <- <-.
  rewrite getNextVersion_initial in Hnext. injection Hnext as <-.
  exists pkg. split; [exact Hpkg|].
  exact (WriteFile_ReadFile _ _ _ _ Hwrite).
Qed.

(** X14: a run is read back by the next one.  For a path whose output
    file [Dir(path) + "/version.go"] is spelled like the file
    [Join(path, "version.go")] that the locator reads (a directory written
    with its trailing separator), after a run on that path for the constant
    of the flag that returns nil, the locator returns the version that the
    incrementer computed, provided the package name and the constant name
    are identifiers. *)
Theorem run_then_locate (mode : string) (lazyInit again : bool)
    (w w2 : World) (path : string) :
  filepath.Join [path; "version.go"] = filepath.Dir path +:+ "/version.go" ->
  identifier variable = true ->
  (forall pkg, parsePackage w path = Return pkg -> identifier pkg = true) ->
  run variable [path] mode lazyInit w = (w2, Return None) ->
  exists next,
    getNextVersion (fst (fst (getCurrentVersion w path lazyInit))) mode =
      (next, None) /\
    getCurrentVersion w2 path again = (next, None, w2).
Proof.
  intros Hsame Hvar Hident Hrun.
  destruct (run_single_inv _ _ _ _ _ _ Hrun)
    as (version & w1 & next & pkg & Hcur & Hnext & Hpkg & Hwrite).
  exists next. rewrite Hcur. split; [exact Hnext|].
  apply (locate_rendered w2 path again pkg next).
  - exact (Hident pkg Hpkg).
  - exact Hvar.
  - exact (getNextVersion_plain _ _ _ Hnext).
  - rewrite Hsame. exact (WriteFile_ReadFile _ _ _ _ Hwrite).
Qed.

(** X15: for a path without a separator, a directory name such as [src]
    as well as [.], the parent directory is [.]: a run that returns nil has
    written the file [./version.go], whatever the path, while the version
    came from [Join(path, "version.go")]. *)
Theorem run_plain_path (variable mode : string) (lazyInit : bool)
    (w w2 : World) (path : string) :
  no_separator path = true ->
  run variable [path] mode lazyInit w = (w2, Return None) ->
  exists pkg next,
    getNextVersion (fst (fst (getCurrentVersion w path lazyInit))) mode =
      (next, None) /\
    ReadFile w2 "./version.go" = inl (rendered pkg next variable).
Proof.
  intros Hplain Hrun.
  destruct (run_single_inv _ _ _ _ _ _ Hrun)
    as (version & w1 & next & pkg & Hcur & Hnext & Hpkg & Hwrite).
  exists pkg, next. rewrite Hcur. split; [exact Hnext|].
  unfold filepath.Dir in Hwrite.
  rewrite (no_separator_prefix _ Hplain) in Hwrite.
  exact (WriteFile_ReadFile _ _ _ _ Hwrite).
Qed.

End RunMore.

(** ** The package namer on every listing *)

Section NamerMore.

Context {World : Type} {os : OS World} {parser : GoParser} {flags : Flags}.

(** Entries that do not end in [.go] play no part. *)
Lemma parseFiles_source_names (w : World) : forall files astFiles,
  parseFiles w files astFiles = parseFiles w (source_names files) astFiles.
Proof.
  unfold source_names.
  induction files as [|file files IH]; intros astFiles; [reflexivity|].
  cbn [parseFiles List.filter]. destruct (HasSuffix file ".go") eqn:E.
  - cbn [negb parseFiles]. rewrite E. cbn [negb].
    destruct (ParseFile w file); [apply IH|reflexivity].
  - cbn [negb]. apply IH.
Qed.

Lemma parseFiles_length (w : World) : forall files astFiles parsed,
  parseFiles w files astFiles = Return parsed ->
  length parsed = (length astFiles + length (source_names files))%nat.
Proof.
  unfold source_names.
  induction files as [|file files IH]; intros astFiles parsed;
    cbn [parseFiles List.filter].
  - intros [= <-]. cbn [length]. lia.
  - destruct (HasSuffix file ".go"); cbn [negb].
    + destruct (ParseFile w file); [|discriminate].
      intros H. rewrite (IH _ _ H), length_app. cbn [length]. lia.
    + apply IH.
Qed.

(** X16: the outcome of the package namer depends on the directory only
    through the names in its listing that end in [.go], each of which is
    opened under that bare name.  Two directories whose listings have the
    same such names, and at least one, give the same package name, or the
    same exit, wherever they are. *)
Theorem parsePackage_bare_names (w : World) (directory1 directory2 : string)
    (files1 files2 : list string) :
  ReadDir w directory1 = inl files1 ->
  ReadDir w directory2 = inl files2 ->
  source_names files1 = source_names files2 ->
  source_names files1 <> [] ->
  parsePackage w directory1 = parsePackage w directory2.
Proof.
  intros H1 H2 Hsame Hsome. unfold parsePackage. rewrite H1, H2.
  assert (Heq : parseFiles w files2 [] = parseFiles w files1 []).
  { rewrite (parseFiles_source_names w files1),
      (parseFiles_source_names w files2), Hsame. reflexivity. }
  rewrite Heq.
  destruct (parseFiles w files1 []) as [[|first rest]|msg] eqn:E;
    try reflexivity.
  apply parseFiles_length in E. cbn [length] in E.
  destruct (source_names files1); [contradiction|discriminate E].
Qed.

(** X17: the exit names the first source file that fails: when the source
    files listed before it parse and it does not, the process exits with
    the message made of its bare name and the error of the parser, whatever
    is listed after it. *)
Theorem parsePackage_first_failure (w : World) (directory : string)
    (pre post : list string) (file : string) (e : error) :
  ReadDir w directory = inl (pre ++ file :: post)%list ->
  (forall name, In name (source_names pre) ->
     exists f, ParseFile w name = inl f) ->
  HasSuffix file ".go" = true ->
  ParseFile w file = inr e ->
  parsePackage w directory =
    Exit ("parsing package: " +:+ file +:+ ": " +:+ Error e).
Proof.
  intros Hdir Hpre Hgo Hfile. unfold parsePackage. rewrite Hdir.
  assert (H : forall astFiles,
    parseFiles w (pre ++ file :: post)%list astFiles =
    Exit ("parsing package: " +:+ file +:+ ": " +:+ Error e)).
  { clear Hdir. unfold source_names in Hpre.
    induction pre as [|p pre IH]; intros astFiles; cbn [app parseFiles].
    - rewrite Hgo, Hfile. reflexivity.
    - cbn [List.filter] in Hpre. destruct (HasSuffix p ".go"); cbn [negb].
      + destruct (Hpre p (or_introl eq_refl)) as [f ->].
        apply IH. intros name Hname. apply Hpre. right. exact Hname.
      + apply IH. exact Hpre. }
  rewrite H. reflexivity.
Qed.

End NamerMore.

(** ** The buffer and the renderer *)

(** X18: writes through an [errWriter] that holds no error are appended to
    the buffer in their order and raise none; an [errWriter] that holds an
    error ignores every write. *)
Theorem writeString_sequence (ew : errWriter) (values : list string) :
  fold_left writeString values ew =
  match err ew with
  | Some _ => ew
  | None => mkErrWriter (b ew +:+ String.concat EmptyString values) None
  end.
Proof.
  revert ew. induction values as [|value values IH]; intros ew.
  - cbn [fold_left String.concat]. rewrite append_nil_r.
    destruct ew as [buffer [e|]]; reflexivity.
  - cbn [fold_left]. rewrite IH. unfold writeString.
    destruct ew as [buffer [e|]]; cbn [err b]; [reflexivity|].
    rewrite append_assoc. f_equal. f_equal.
    destruct values as [|v values]; [|reflexivity].
    cbn [String.concat]. rewrite append_nil_r. reflexivity.
Qed.

Lemma append_cancel_r : forall s1 s2 t : string,
  s1 +:+ t = s2 +:+ t -> s1 = s2.
Proof.
  assert (Hlen : forall s t : string,
            String.length (s +:+ t) = (String.length s + String.length t)%nat).
  { induction s as [|a s IH]; intros t; [reflexivity|].
    rewrite append_cons. cbn [String.length]. rewrite IH. reflexivity. }
  induction s1 as [|a s1 IH]; intros s2 t H.
  - destruct s2 as [|c s2]; [reflexivity|].
    apply (f_equal String.length) in H. rewrite !Hlen in H.
    cbn [String.length] in H. lia.
  - destruct s2 as [|c s2].
    + apply (f_equal String.length) in H. rewrite !Hlen in H.
      cbn [String.length] in H. lia.
    + rewrite !append_cons in H. injection H as -> H.
      rewrite (IH _ _ H). reflexivity.
Qed.

Lemma append_cancel_l : forall s t1 t2 : string,
  s +:+ t1 = s +:+ t2 -> t1 = t2.
Proof.
  induction s as [|a s IH]; intros t1 t2 H; [exact H|].
  rewrite !append_cons in H. injection H as H. exact (IH _ _ H).
Qed.

(** X19: for a package and a constant, the rendered text determines the
    version: two different versions never render to the same text, quotes
    and all. *)
Theorem rendered_injective (pkg variable version1 version2 : string) :
  version1 <> version2 ->
  rendered pkg version1 variable <> rendered pkg version2 variable.
Proof.
  intros Hne H. apply Hne. rewrite !rendered_pieces in H.
  do 5 apply append_cancel_l in H.
  exact (append_cancel_r _ _ _ H).
Qed.

(** ** These theorems on concrete worlds *)

Lemma getCurrentVersion_first_literal_witness :
  getCurrentVersion released "." false = ("1.2.9", None, released).
Proof.
  assert (Hparse : ParseFile released (filepath.Join ["."; "version.go"]) =
                   inl (rendered_file "main" "1.2.9" "VERSION"))
    by (vm_compute; reflexivity).
  exact (getCurrentVersion_first_literal released "." false
           (rendered_file "main" "1.2.9" "VERSION") [] [] [] [] ["VERSION"]
           [] [] token.STRING (String dquote ("1.2.9" +:+ String dquote EmptyString))
           Hparse eq_refl eq_refl eq_refl (or_introl eq_refl) eq_refl).
Defined.

Lemma getCurrentVersion_no_outer_quote_witness :
  (forall r, "1.2.9" <> String dquote r) /\
  (forall r, "1.2.9" <> r +:+ String dquote EmptyString).
Proof.
  assert (H : getCurrentVersion released "." false = ("1.2.9", None, released))
    by (vm_compute; reflexivity).
  exact (getCurrentVersion_no_outer_quote released released "." false
           "1.2.9" None H).
Defined.

Lemma getCurrentVersion_reads_only_witness :
  let w' := mem_Printf empty_world
    ("Version file not found at [version.go], initializing version to [1.0.0]"
       +:+ nl) in
  ReadFile w' "version.go" = ReadFile empty_world "version.go" /\
  ReadDir w' "version.go" = ReadDir empty_world "version.go".
Proof.
  intros w'.
  assert (H : getCurrentVersion (flags := verbose_flags) empty_world "." true =
              ("1.0.0", None, w')) by (vm_compute; reflexivity).
  exact (getCurrentVersion_reads_only (flags := verbose_flags) empty_world w'
           "." true "1.0.0" None H "version.go").
Defined.

Lemma printCurrentVersion_repeatable_witness :
  snd (printCurrentVersion "VERSION" ["."] (mem_Printf released "1.2.9")) = None.
Proof.
  assert (H : printCurrentVersion "VERSION" ["."] released =
              (mem_Printf released "1.2.9", None)) by (vm_compute; reflexivity).
  exact (proj2 (printCurrentVersion_repeatable "VERSION" ["."] released
                  (mem_Printf released "1.2.9") None H)).
Defined.

Lemma printCurrentVersion_first_error_witness :
  snd (printCurrentVersion "VERSION" ["."; "missing"; "."] released) =
  Some (no_such_file "missing/version.go").
Proof.
  assert (Hpre : forall p, In p ["."] ->
            snd (fst (getCurrentVersion released p false)) = None).
  { intros p [<-|[]]. vm_compute. reflexivity. }
  assert (Hpath : snd (fst (getCurrentVersion released "missing" false)) =
                  Some (no_such_file "missing/version.go"))
    by (vm_compute; reflexivity).
  exact (printCurrentVersion_first_error "VERSION" ["."] ["."] "missing"
           released (no_such_file "missing/version.go") Hpre Hpath).
Defined.

Lemma printCurrentVersion_prints_witness :
  printCurrentVersion "VERSION" ["."; "."] released =
  (mkMemWorld (mem_files released) (mem_dirs released) ["1.2.9"; "1.2.9"],
   None).
Proof.
  assert (H : Forall2
            (fun p v => fst (getCurrentVersion released p false) = (v, None))
            ["."; "."] ["1.2.9"; "1.2.9"]).
  { repeat constructor; vm_compute; reflexivity. }
  exact (printCurrentVersion_prints "VERSION" ["."; "."] ["1.2.9"; "1.2.9"]
           released H).
Defined.

Lemma run_first_release_witness :
  exists pkg,
    parsePackage fresh_project "." = Return pkg /\
    ReadFile (fst (mem_WriteFile fresh_project "./version.go"
                     (rendered "main" "1.1.0" "VERSION"))) "./version.go" =
      inl (rendered pkg "1.1.0" "VERSION").
Proof.
  assert (Hparse : ParseFile fresh_project (filepath.Join ["."; "version.go"]) =
                   inr (no_such_file "version.go"))
    by (vm_compute; reflexivity).
  assert (Hrun : run "VERSION" ["."] "MINOR" true fresh_project =
                 (fst (mem_WriteFile fresh_project "./version.go"
                         (rendered "main" "1.1.0" "VERSION")), Return None))
    by (vm_compute; reflexivity).
  exact (run_first_release "VERSION" "MINOR" fresh_project _ "."
           (no_such_file "version.go") Hparse Hrun).
Defined.

Lemma run_then_locate_witness :
  let w2 := fst (mem_WriteFile app_project "app/version.go"
                   (rendered "main" "1.0.1" "VERSION")) in
  exists next,
    getNextVersion (fst (fst (getCurrentVersion app_project "app/" true)))
      "PATCH" = (next, None) /\
    getCurrentVersion w2 "app/" false = (next, None, w2).
Proof.
  intros w2.
  assert (Hsame : filepath.Join ["app/"; "version.go"] =
                  filepath.Dir "app/" +:+ "/version.go")
    by (vm_compute; reflexivity).
  assert (Hvar : identifier variable = true) by (vm_compute; reflexivity).
  assert (Hpkg : forall pkg, parsePackage app_project "app/" = Return pkg ->
                             identifier pkg = true).
  { intros pkg H. vm_compute in H. injection H as <-. vm_compute. reflexivity. }
  assert (Hrun : run variable ["app/"] "PATCH" true app_project =
                 (w2, Return None)) by (vm_compute; reflexivity).
  exact (run_then_locate "PATCH" true false app_project w2 "app/"
           Hsame Hvar Hpkg Hrun).
Defined.

Lemma run_plain_path_witness :
  let w2 := fst (mem_WriteFile src_project "./version.go"
                   (rendered "main" "1.0.1" "VERSION")) in
  exists pkg next,
    getNextVersion (fst (fst (getCurrentVersion src_project "src" true)))
      "PATCH" = (next, None) /\
    ReadFile w2 "./version.go" = inl (rendered pkg next "VERSION").
Proof.
  intros w2.
  assert (Hrun : run "VERSION" ["src"] "PATCH" true src_project =
                 (w2, Return None)) by (vm_compute; reflexivity).
  exact (run_plain_path "VERSION" "PATCH" true src_project w2 "src"
           eq_refl Hrun).
Defined.

Lemma parsePackage_bare_names_witness :
  parsePackage two_directories "a" = parsePackage two_directories "b".
Proof.
  assert (Ha : ReadDir two_directories "a" = inl ["main.go"])
    by (vm_compute; reflexivity).
  assert (Hb : ReadDir two_directories "b" = inl ["README.md"; "main.go"])
    by (vm_compute; reflexivity).
  assert (Hsome : source_names ["main.go"] <> []) by discriminate.
  exact (parsePackage_bare_names two_directories "a" "b" _ _ Ha Hb eq_refl
           Hsome).
Defined.

Lemma parsePackage_first_failure_witness :
  parsePackage broken_sibling "." =
  Exit ("parsing package: b.go: syntax error").
Proof.
  assert (Hdir : ReadDir broken_sibling "." = inl (["a.go"] ++ "b.go" :: [])%list)
    by (vm_compute; reflexivity).
  assert (Hpre : forall name, In name (source_names ["a.go"]) ->
            exists f, ParseFile broken_sibling name = inl f).
  { intros name [<-|[]]. eexists. vm_compute. reflexivity. }
  assert (Hfile : ParseFile broken_sibling "b.go" =
                  inr (errorString "syntax error"))
    by (vm_compute; reflexivity).
  exact (parsePackage_first_failure broken_sibling "." ["a.go"] [] "b.go"
           (errorString "syntax error") Hdir Hpre eq_refl Hfile).
Defined.

Lemma rendered_injective_witness :
  rendered "main" "1.0.9" "VERSION" <> rendered "main" "1.0.10" "VERSION".
Proof.
  apply (rendered_injective "main" "VERSION" "1.0.9" "1.0.10"). discriminate.
Defined.

(** The version 1.10.0, once written, stops the tool: the run returns the
    format error and the files stay as they are. *)
Lemma run_failure_writes_nothing_witness :
  exists w2,
    run "VERSION" ["."] "PATCH" false minor_ten =
      (w2, Return (Some (errorString (format_message "1.10.0")))) /\
    forall name, ReadFile w2 name = ReadFile minor_ten name.
Proof.
  destruct (run_failure_writes_nothing "VERSION" "PATCH" false minor_ten ".")
    as (_ & Hnext & _).
  apply (Hnext "1.10.0" minor_ten EmptyString); vm_compute; reflexivity.
Defined.
